(** * Weather backend API: request handlers of [app/main.py]

    A shallow embedding of the FastAPI handlers of [app/main.py] and the
    properties the specification states about them.

    - Request bodies are Python dicts: [gmap string value], read with
      [dict_get] ([dict.get], [None] when the key is missing).
    - The handlers run in a state-and-exception monad [M] over a [world]:
      the database, and the trace of every collaborator call made so far
      (data-access layer, weather provider, video search).
    - A calendar date is its day ordinal (an integer); [timedelta(days=n)]
      adds [n].  The upper limit of Python's [date] type (year 9999) and a
      change of [date.today()] while a request runs are outside the model.
    - Finite floats are the rationals they denote; only their truth value is
      ever inspected, otherwise they are passed along.
    - [app/crud.py], [app/database_model.py], [app/weather_api.py] and
      [app/youtube_api.py] are not part of the verified sources.  The
      data-access layer is modelled from the specification (module [crud]);
      the providers, [date.today], [date.fromisoformat], [date.isoformat]
      and [str] are fields of the environment [env]. *)

From Stdlib Require Import ZArith Ascii String List Lia QArith Qcanon.
From stdpp Require Import base option list strings gmap numbers pretty.
From Equations Require Import Equations.

Local Open Scope Z_scope.

(** ** Python values *)

(** The JSON scalars a request body can carry. *)
Inductive value : Type :=
| VNone
| VBool (b : bool)
| VInt (n : Z)
| VFloat (q : Qc)
| VStr (s : string).

#[global] Instance value_eq_dec : EqDecision value.
Proof. solve_decision. Defined.

(** Python truth value: [None], [False], zero and the empty string are
    falsy. *)
Definition truthy (v : value) : bool :=
  match v with
  | VNone => false
  | VBool b => b
  | VInt n => negb (n =? 0)
  | VFloat q => negb (Qnum (this q) =? 0)
  | VStr s => negb (String.eqb s "")
  end.

Abbreviation dict := (gmap string value).

(** [d.get(k)] *)
Definition dict_get (d : dict) (k : string) : value := default VNone (d !! k).

(** [datetime.date], as a day ordinal. *)
Definition date : Type := Z.

(** ** Data model *)

Record WeatherLocation : Type := {
  loc_id : Z;
  loc_city : value;
  loc_country : value;
  loc_lat : value;
  loc_lon : value }.

Record WeatherInfo : Type := {
  info_id : Z;
  info_location_id : Z;
  info_date : date;
  info_temperature : value;
  info_weather_description : value;
  info_raw_data : value }.

#[global] Instance WeatherLocation_eq_dec : EqDecision WeatherLocation.
Proof. solve_decision. Defined.

#[global] Instance WeatherInfo_eq_dec : EqDecision WeatherInfo.
Proof. solve_decision. Defined.

Record database : Type := {
  locations : list WeatherLocation;
  weather_infos : list WeatherInfo }.

(** ** Collaborators *)

(** The response of the weather provider, as far as the handlers read it:
    [data["coord"]["lat"]], [data["coord"]["lon"]], [data["main"]["temp"]]
    and [data["weather"][0]["description"]]. *)
Record weather_data : Type := {
  coord_lat : value;
  coord_lon : value;
  main_temp : value;
  weather0_description : value }.

Definition video : Type := string.

(** Calls to the data-access layer. *)
Inductive crud_call : Type :=
| GetLocationByCity (city country : value)
| CreateLocation (city country lat lon : value)
| GetLocation (location_id : Z)
| ListLocations (skip limit : Z)
| DeleteLocation (location_id : Z)
| GetInfoByLocDate (location_id : Z) (d : date)
| CreateInfo (location_id : Z) (info_date : date) (temperature weather_description : value)
| GetInfo (info_id : Z)
| ListInfos (skip limit : Z)
| UpdateInfo (info_id : Z) (updates : dict)
| DeleteInfo (info_id : Z)
| GetInfosByLocDateRange (location_id : Z) (start end_ : date).

(** Every call a handler makes to a collaborator. *)
Inductive event : Type :=
| WeatherByCity (city country : value)
| ForecastByDateAndCity (d : date) (city country : value)
| YoutubeSearch (query : string) (max_results : Z)
| Crud (c : crud_call).

Definition is_provider_call (e : event) : bool :=
  match e with
  | Crud _ => false
  | _ => true
  end.

(** What the handlers take from outside [app/main.py].  A provider answers
    from the calls made before ([None]: the call raises), so two calls with
    the same arguments need not agree. *)
Record env : Type := {
  today : date;
  fromisoformat : string -> option date;
  isoformat : date -> string;
  str : value -> string;
  get_weather_by_city : list event -> value -> value -> option weather_data;
  get_forecast_by_date_and_city :
    list event -> date -> value -> value -> option weather_data;
  search_youtube_videos : list event -> string -> Z -> option (list video) }.

(** ** The handler monad *)

Inductive exn : Type :=
| HTTPException (status_code : Z) (detail : string)
| CollaboratorError
| TypeError
| AttributeError.

Inductive result (A : Type) : Type :=
| Ok (a : A)
| Raise (e : exn).
Arguments Ok {A} a.
Arguments Raise {A} e.

Record world : Type := {
  db : database;
  trace : list event }.

Definition M (A : Type) : Type := world -> result A * world.

#[global] Instance M_ret : MRet M := fun A a w => (Ok a, w).

#[global] Instance M_bind : MBind M := fun A B f m w =>
  match m w with
  | (Ok a, w') => f a w'
  | (Raise e, w') => (Raise e, w')
  end.

#[global] Instance M_fmap : FMap M := fun A B f m w =>
  match m w with
  | (Ok a, w') => (Ok (f a), w')
  | (Raise e, w') => (Raise e, w')
  end.

Definition raise {A : Type} (e : exn) : M A := fun w => (Raise e, w).

Definition log (e : event) (w : world) : world :=
  {| db := db w; trace := trace w ++ [e] |}.

(** The provider calls on a trace. *)
Definition provider_calls (t : list event) : list event :=
  filter (fun e => is_provider_call e = true) t.

(** ** The data-access layer *)

Definition next_id (ids : list Z) : Z := 1 + foldr Z.max 0 ids.

Definition same_city (city country : value) (l : WeatherLocation) : bool :=
  bool_decide (loc_city l = city ∧ loc_country l = country).

Definition same_loc_date (location_id : Z) (d : date) (i : WeatherInfo) : bool :=
  bool_decide (info_location_id i = location_id ∧ info_date i = d).

Definition page {A : Type} (skip limit : Z) (l : list A) : list A :=
  let rest := drop (Z.to_nat skip) l in
  if limit <? 0 then rest else take (Z.to_nat limit) rest.

Definition set_locations (ls : list WeatherLocation) (d : database) : database :=
  {| locations := ls; weather_infos := weather_infos d |}.

Definition set_infos (rows : list WeatherInfo) (d : database) : database :=
  {| locations := locations d; weather_infos := rows |}.

(** A partial update: each of the three updatable fields takes the value
    the mapping gives it, and keeps its own when the mapping has none. *)
Definition apply_updates (updates : dict) (i : WeatherInfo) : WeatherInfo :=
  {| info_id := info_id i;
     info_location_id := info_location_id i;
     info_date := info_date i;
     info_temperature := default (info_temperature i) (updates !! "temperature");
     info_weather_description :=
       default (info_weather_description i) (updates !! "weather_description");
     info_raw_data := default (info_raw_data i) (updates !! "raw_data") |}.

(** Replace the first record [p] holds of. *)
Fixpoint update_first {A : Type} (p : A -> bool) (f : A -> A) (l : list A) : list A :=
  match l with
  | [] => []
  | x :: l' => if p x then f x :: l' else x :: update_first p f l'
  end.

(** Remove the first record [p] holds of. *)
Fixpoint remove_first {A : Type} (p : A -> bool) (l : list A) : list A :=
  match l with
  | [] => []
  | x :: l' => if p x then l' else x :: remove_first p l'
  end.

Module crud.

(** An action of the data-access layer: it is logged, reads the database
    and may replace it. *)
Definition run {A : Type} (c : crud_call) (f : database -> A * database) : M A :=
  fun w =>
    let '(a, d) := f (db w) in
    (Ok a, {| db := d; trace := trace w ++ [Crud c] |}).

(** Modelled from the spec: [crud.get_location_by_city] is missing from the
    sources; the persistence collaborator finds a location by its
    (city, country) pair, which is unique. *)
Definition get_location_by_city (city country : value) : M (option WeatherLocation) :=
  run (GetLocationByCity city country)
      (fun d => (find (same_city city country) (locations d), d)).

(** Modelled from the spec: [crud.create_location] is missing from the
    sources; it persists a new Location with a system-generated unique
    identifier and returns it. *)
Definition create_location (city country lat lon : value) : M WeatherLocation :=
  run (CreateLocation city country lat lon)
      (fun d =>
         let l := {| loc_id := next_id (map loc_id (locations d));
                     loc_city := city; loc_country := country;
                     loc_lat := lat; loc_lon := lon |} in
         (l, set_locations (locations d ++ [l]) d)).

(** Modelled from the spec: [crud.get_location] is missing from the sources;
    it reads a location by identifier. *)
Definition get_location (location_id : Z) : M (option WeatherLocation) :=
  run (GetLocation location_id)
      (fun d => (find (fun l => bool_decide (loc_id l = location_id)) (locations d), d)).

(** Modelled from the spec: [crud.list_locations] is missing from the
    sources; it returns a page of locations given a skip offset and a limit
    count (a negative limit asks for the full set), with no filtering. *)
Definition list_locations (skip limit : Z) : M (list WeatherLocation) :=
  run (ListLocations skip limit) (fun d => (page skip limit (locations d), d)).

(** Modelled from the spec: [crud.delete_location] is missing from the
    sources; it removes a location by identifier and returns the deleted
    record, or nothing when the identifier does not exist.  A WeatherInfo
    always references an existing Location, so the records of the location
    go with it. *)
Definition delete_location (location_id : Z) : M (option WeatherLocation) :=
  run (DeleteLocation location_id)
      (fun d =>
         let p := fun l => bool_decide (loc_id l = location_id) in
         match find p (locations d) with
         | None => (None, d)
         | Some l =>
             (Some l,
              {| locations := remove_first p (locations d);
                 weather_infos :=
                   filter (fun i => info_location_id i ≠ location_id) (weather_infos d) |})
         end).

(** Modelled from the spec: [crud.get_info_by_loc_date] is missing from the
    sources; it looks up the WeatherInfo of a (location, date) pair. *)
Definition get_info_by_loc_date (location_id : Z) (d : date) : M (option WeatherInfo) :=
  run (GetInfoByLocDate location_id d)
      (fun b => (find (same_loc_date location_id d) (weather_infos b), b)).

(** Modelled from the spec: [crud.create_info] is missing from the sources;
    it persists a new WeatherInfo with a system-generated unique identifier
    and returns it.  The raw-data payload is optional and the handler never
    passes it. *)
Definition create_info (location_id : Z) (info_date : date)
    (temperature weather_description : value) : M WeatherInfo :=
  run (CreateInfo location_id info_date temperature weather_description)
      (fun d =>
         let i := {| info_id := next_id (map info_id (weather_infos d));
                     info_location_id := location_id;
                     info_date := info_date;
                     info_temperature := temperature;
                     info_weather_description := weather_description;
                     info_raw_data := VNone |} in
         (i, set_infos (weather_infos d ++ [i]) d)).

(** Modelled from the spec: [crud.get_info] is missing from the sources; it
    reads a WeatherInfo by identifier. *)
Definition get_info (info_id_ : Z) : M (option WeatherInfo) :=
  run (GetInfo info_id_)
      (fun d => (find (fun i => bool_decide (info_id i = info_id_)) (weather_infos d), d)).

(** Modelled from the spec: [crud.list_infos] is missing from the sources;
    it returns a page of WeatherInfo records (a negative limit asks for the
    full set). *)
Definition list_infos (skip limit : Z) : M (list WeatherInfo) :=
  run (ListInfos skip limit) (fun d => (page skip limit (weather_infos d), d)).

(** Modelled from the spec: [crud.update_info] is missing from the sources;
    it accepts a mapping of field names to new values restricted to
    temperature, weather description and raw data, leaves unspecified
    fields untouched, and returns nothing when the identifier does not
    resolve. *)
Definition update_info (info_id_ : Z) (updates : dict) : M (option WeatherInfo) :=
  run (UpdateInfo info_id_ updates)
      (fun d =>
         let p := fun i => bool_decide (info_id i = info_id_) in
         match find p (weather_infos d) with
         | None => (None, d)
         | Some i =>
             (Some (apply_updates updates i),
              set_infos (update_first p (apply_updates updates) (weather_infos d)) d)
         end).

(** Modelled from the spec: [crud.delete_info] is missing from the sources;
    it removes a WeatherInfo by identifier and returns the deleted record,
    or nothing when the identifier does not exist. *)
Definition delete_info (info_id_ : Z) : M (option WeatherInfo) :=
  run (DeleteInfo info_id_)
      (fun d =>
         let p := fun i => bool_decide (info_id i = info_id_) in
         match find p (weather_infos d) with
         | None => (None, d)
         | Some i => (Some i, set_infos (remove_first p (weather_infos d)) d)
         end).

(** Modelled from the spec: [crud.get_infos_by_loc_date_range] is missing
    from the sources; it returns the records of a location whose date lies
    in the inclusive range. *)
Definition get_infos_by_loc_date_range (location_id : Z) (start end_ : date)
    : M (list WeatherInfo) :=
  run (GetInfosByLocDateRange location_id start end_)
      (fun d =>
         (filter (fun i => info_location_id i = location_id
                           ∧ start ≤ info_date i ∧ info_date i ≤ end_)
                 (weather_infos d), d)).

End crud.

(** ** The handlers of [app/main.py] *)

(** The outcome of [date.fromisoformat]: a date, the [ValueError] of a
    malformed string (which the handlers catch), or the [TypeError] of an
    argument that is not a string (which they do not). *)
Inductive py_date : Type :=
| Date (d : date)
| ValueError
| NotAString.

Record export_location : Type := {
  el_id : Z;
  el_city : value;
  el_country : value;
  el_lat : value;
  el_lon : value }.

Record export_row : Type := {
  row_id : Z;
  row_date : string;
  row_temperature : value;
  row_description : value;
  row_location : export_location }.

Section Handlers.

Context (E : env).

(** [get_weather_by_city(city, country)] *)
Definition weather_by_city (city country : value) : M weather_data :=
  fun w =>
    match get_weather_by_city E (trace w) city country with
    | Some data => (Ok data, log (WeatherByCity city country) w)
    | None => (Raise CollaboratorError, log (WeatherByCity city country) w)
    end.

(** [get_forecast_by_date_and_city(d, city, country)] *)
Definition forecast_by_date_and_city (d : date) (city country : value) : M weather_data :=
  fun w =>
    match get_forecast_by_date_and_city E (trace w) d city country with
    | Some data => (Ok data, log (ForecastByDateAndCity d city country) w)
    | None => (Raise CollaboratorError, log (ForecastByDateAndCity d city country) w)
    end.

(** [search_youtube_videos(query, max_results=max_results)] *)
Definition youtube_search (query : string) (max_results : Z) : M (list video) :=
  fun w =>
    match search_youtube_videos E (trace w) query max_results with
    | Some vs => (Ok vs, log (YoutubeSearch query max_results) w)
    | None => (Raise CollaboratorError, log (YoutubeSearch query max_results) w)
    end.

(** [date.fromisoformat(v)]: a [ValueError] on a malformed string, a
    [TypeError] on anything that is not a string. *)
Definition date_fromisoformat (v : value) : py_date :=
  match v with
  | VStr s => match fromisoformat E s with Some d => Date d | None => ValueError end
  | _ => NotAString
  end.

(** [try: start = date.fromisoformat(a); end = date.fromisoformat(b)
    except ValueError: raise HTTPException(400, ...)] *)
Definition parse_dates (a b : value) : M (date * date) :=
  match date_fromisoformat a with
  | ValueError => raise (HTTPException 400 "Invalid date format. Use YYYY-MM-DD")
  | NotAString => raise TypeError
  | Date start =>
      match date_fromisoformat b with
      | ValueError => raise (HTTPException 400 "Invalid date format. Use YYYY-MM-DD")
      | NotAString => raise TypeError
      | Date end_ => mret (start, end_)
      end
  end.

(** *** WeatherLocation endpoints *)

(** [POST /locations/] *)
Definition create_location (location : dict) : M WeatherLocation :=
  let city := dict_get location "city" in
  let country := dict_get location "country" in
  let lat := dict_get location "lat" in
  let lon := dict_get location "lon" in
  (* if not city: raise HTTPException(status_code=400, ...) *)
  if negb (truthy city) then raise (HTTPException 400 "city is required")
  else
    (* if not lat or not lon: data = get_weather_by_city(city, country);
       lat = data["coord"]["lat"]; lon = data["coord"]["lon"] *)
    '(lat, lon) ←
      (if negb (truthy lat) || negb (truthy lon)
       then data ← weather_by_city city country;
            mret (coord_lat data, coord_lon data)
       else mret (lat, lon));
    (* db_loc = crud.get_location_by_city(db, city, country)
       if db_loc: raise HTTPException(status_code=400, ...) *)
    db_loc ← crud.get_location_by_city city country;
    match db_loc with
    | Some _ => raise (HTTPException 400 "Location already exists")
    | None => crud.create_location city country lat lon
    end.

(** [GET /locations/] *)
Definition list_locations (skip limit : Z) : M (list WeatherLocation) :=
  crud.list_locations skip limit.

(** [DELETE /locations/{location_id}] *)
Definition delete_location (location_id : Z) : M WeatherLocation :=
  loc ← crud.delete_location location_id;
  match loc with
  | None => raise (HTTPException 404 "Location not found")
  | Some l => mret l
  end.

(** *** WeatherInfo endpoints *)

(** The body of the loop of [create_info] for one date: the record of the
    date, looked up or fetched and stored.  The source also computes
    [raw = str(info_data)] and leaves it unused: the [raw_data=raw] argument
    of [crud.create_info] is commented out. *)
Definition ingest_date (loc : WeatherLocation) (city country : value) (current : date)
    : M WeatherInfo :=
  (* info = crud.get_info_by_loc_date(db, location_id=loc.id, date=current) *)
  info ← crud.get_info_by_loc_date (loc_id loc) current;
  match info with
  | Some i => mret i
  | None =>
      (* if current == date.today(): info_data = get_weather_by_city(city, country)
         else: info_data = get_forecast_by_date_and_city(current, city, country) *)
      info_data ←
        (if bool_decide (current = today E)
         then weather_by_city city country
         else forecast_by_date_and_city current city country);
      let temp := main_temp info_data in
      let desc := weather0_description info_data in
      crud.create_info (loc_id loc) current temp desc
  end.

(** [while current <= end: ...; infos.append(jsonable_encoder(info));
    current += timedelta(days=1)].  The encoding of a record for the
    response is not modelled: the sequence holds the records. *)
Equations? ingest_loop (loc : WeatherLocation) (city country : value)
    (end_ current : date) (infos : list WeatherInfo) : M (list WeatherInfo)
    by wf (Z.to_nat (end_ + 1 - current)) lt :=
  ingest_loop loc city country end_ current infos with decide (current ≤ end_) := {
    | left _ =>
        info ← ingest_date loc city country current;
        ingest_loop loc city country end_ (current + 1) (infos ++ [info])
    | right _ => mret infos }.
Proof. lia. Qed.

(** [create_info] once its input is validated (from [# Get or create
    location] on): get or create the location, then fetch and store each
    date of the range, starting with [infos = []] and [current = start]. *)
Definition fetch_and_store (city country : value) (start end_ : date)
    : M (list WeatherInfo) :=
  loc ← crud.get_location_by_city city country;
  loc ← match loc with
        | Some l => mret l
        | None =>
            data ← weather_by_city city country;
            crud.create_location city country (coord_lat data) (coord_lon data)
        end;
  ingest_loop loc city country end_ start [].

(** [POST /weather_infos/] *)
Definition create_info (input : dict) : M (list WeatherInfo) :=
  let city := dict_get input "city" in
  let country := dict_get input "country" in
  let start_date := dict_get input "start_date" in
  let end_date := dict_get input "end_date" in
  if negb (truthy city) || negb (truthy start_date) || negb (truthy end_date)
  then raise (HTTPException 400 "city, start_date, and end_date are required")
  else
    '(start, end_) ← parse_dates start_date end_date;
    if bool_decide (start > end_)
    then raise (HTTPException 400 "start_date must be before end_date")
    else if bool_decide (start < today E) || bool_decide (end_ < today E)
    then raise (HTTPException 400 "Historical data is not supported in free OpenWeather API")
    else if bool_decide (start > today E + 5) || bool_decide (end_ > today E + 5)
    then raise (HTTPException 400 "Max 5 days forecast supported in free OpenWeather API")
    else fetch_and_store city country start end_.

(** [GET /weather_infos/] *)
Definition list_infos (skip limit : Z) : M (list WeatherInfo) :=
  crud.list_infos skip limit.

(** [GET /weather_infos/{info_id}] *)
Definition get_info (info_id_ : Z) : M WeatherInfo :=
  info ← crud.get_info info_id_;
  match info with
  | None => raise (HTTPException 404 "Weather info not found")
  | Some i => mret i
  end.

(** [PUT /weather_infos/{info_id}] *)
Definition update_info (info_id_ : Z) (updates : dict) : M WeatherInfo :=
  info ← crud.update_info info_id_ updates;
  match info with
  | None => raise (HTTPException 404 "Weather info not found")
  | Some i => mret i
  end.

(** [DELETE /weather_infos/{info_id}] *)
Definition delete_weather_info (info_id_ : Z) : M WeatherInfo :=
  info ← crud.delete_info info_id_;
  match info with
  | None => raise (HTTPException 404 "Weather info not found")
  | Some i => mret i
  end.

(** [GET /weather_infos/by_loc_date/{location_id}] *)
Definition get_info_by_loc_date (location_id : Z) (look_up_date : string) : M WeatherInfo :=
  match fromisoformat E look_up_date with
  | None => raise (HTTPException 400 "Invalid date format. Use YYYY-MM-DD")
  | Some info_date =>
      info ← crud.get_info_by_loc_date location_id info_date;
      match info with
      | None => raise (HTTPException 404 "Weather info not found")
      | Some i => mret i
      end
  end.

(** [GET /weather_infos/by_loc_date_range/{location_id}] *)
Definition get_infos_by_loc_date_range (location_id : Z) (start_date end_date : string)
    : M (list WeatherInfo) :=
  match fromisoformat E start_date with
  | None => raise (HTTPException 400 "Invalid date format. Use YYYY-MM-DD")
  | Some start =>
      match fromisoformat E end_date with
      | None => raise (HTTPException 400 "Invalid date format. Use YYYY-MM-DD")
      | Some end_ =>
          infos ← crud.get_infos_by_loc_date_range location_id start end_;
          match infos with
          | [] => raise (HTTPException 404 "Weather info not found")
          | _ => mret infos
          end
      end
  end.

(** *** Export and videos *)

(** [info.location]: the owning location, read through the relationship;
    [None] when there is none, and reading a field of it then fails. *)
Definition location_of (info : WeatherInfo) : M WeatherLocation :=
  fun w =>
    match find (fun l => bool_decide (loc_id l = info_location_id info))
               (locations (db w)) with
    | Some l => (Ok l, w)
    | None => (Raise AttributeError, w)
    end.

Fixpoint export_rows (infos : list WeatherInfo) : M (list export_row) :=
  match infos with
  | [] => mret []
  | info :: rest =>
      l ← location_of info;
      rows ← export_rows rest;
      mret ({| row_id := info_id info;
               row_date := isoformat E (info_date info);
               row_temperature := info_temperature info;
               row_description := info_weather_description info;
               row_location :=
                 {| el_id := loc_id l; el_city := loc_city l;
                    el_country := loc_country l;
                    el_lat := loc_lat l; el_lon := loc_lon l |} |} :: rows)
  end.

(** [GET /export/json] *)
Definition export_json : M (list export_row) :=
  infos ← crud.list_infos 0 (-1);
  export_rows infos.

(** [GET /videos/{location_id}] *)
Definition get_location_videos (location_id max_results : Z) : M (value * list video) :=
  loc ← crud.get_location location_id;
  match loc with
  | None => raise (HTTPException 404 "Location not found")
  | Some l =>
      let query :=
        ("weather in " +:+ str E (loc_city l))
        +:+ (if truthy (loc_country l) then ", " +:+ str E (loc_country l) else "") in
      videos ← youtube_search query max_results;
      mret (loc_city l, videos)
  end.

(** *** The HTTP surface *)

Inductive request : Type :=
| PostLocations (location : dict)
| GetLocations (skip limit : Z)
| DeleteLocations (location_id : Z)
| PostWeatherInfos (input : dict)
| GetWeatherInfos (skip limit : Z)
| GetWeatherInfo (info_id : Z)
| PutWeatherInfo (info_id : Z) (updates : dict)
| DeleteWeatherInfo (info_id : Z)
| GetByLocDate (location_id : Z) (look_up_date : string)
| GetByLocDateRange (location_id : Z) (start_date end_date : string)
| GetExportJson
| GetVideos (location_id max_results : Z).

Inductive response : Type :=
| RLocation (l : WeatherLocation)
| RLocations (ls : list WeatherLocation)
| RInfo (i : WeatherInfo)
| RInfos (infos : list WeatherInfo)
| RExport (rows : list export_row)
| RVideos (location : value) (videos : list video).

Definition handle (r : request) : M response :=
  match r with
  | PostLocations location => RLocation <$> create_location location
  | GetLocations skip limit => RLocations <$> list_locations skip limit
  | DeleteLocations location_id => RLocation <$> delete_location location_id
  | PostWeatherInfos input => RInfos <$> create_info input
  | GetWeatherInfos skip limit => RInfos <$> list_infos skip limit
  | GetWeatherInfo info_id => RInfo <$> get_info info_id
  | PutWeatherInfo info_id updates => RInfo <$> update_info info_id updates
  | DeleteWeatherInfo info_id => RInfo <$> delete_weather_info info_id
  | GetByLocDate location_id look_up_date =>
      RInfo <$> get_info_by_loc_date location_id look_up_date
  | GetByLocDateRange location_id start_date end_date =>
      RInfos <$> get_infos_by_loc_date_range location_id start_date end_date
  | GetExportJson => RExport <$> export_json
  | GetVideos location_id max_results =>
      (fun r => RVideos r.1 r.2) <$> get_location_videos location_id max_results
  end.

End Handlers.

(** ** A concrete environment

    The theorems below hold for every environment.  This one runs the
    handlers on actual requests: ISO dates of the form YYYY-MM-DD on the
    proleptic Gregorian calendar, and canned providers. *)

Module Calendar.

Definition digit (c : ascii) : option Z :=
  let n := Z.of_nat (nat_of_ascii c) in
  if (48 <=? n) && (n <=? 57) then Some (n - 48) else None.

Definition is_leap (y : Z) : bool :=
  (y mod 4 =? 0) && (negb (y mod 100 =? 0) || (y mod 400 =? 0)).

Definition days_in_month (y m : Z) : Z :=
  if m =? 2 then (if is_leap y then 29 else 28)
  else if (m =? 4) || (m =? 6) || (m =? 9) || (m =? 11) then 30
  else 31.

(** [date(y, m, d).toordinal()]: day 1 is 0001-01-01. *)
Definition toordinal (y m d : Z) : Z :=
  let y' := if m <=? 2 then y - 1 else y in
  let era := y' / 400 in
  let yoe := y' - era * 400 in
  let doy := (153 * (if m <=? 2 then m + 9 else m - 3) + 2) / 5 + d - 1 in
  era * 146097 + (yoe * 365 + yoe / 4 - yoe / 100 + doy) - 305.

Definition fromisoformat (s : string) : option date :=
  match s with
  | String y1 (String y2 (String y3 (String y4 (String "-"
      (String m1 (String m2 (String "-" (String d1 (String d2 EmptyString))))))))) =>
      y1 ← digit y1; y2 ← digit y2; y3 ← digit y3; y4 ← digit y4;
      m1 ← digit m1; m2 ← digit m2; d1 ← digit d1; d2 ← digit d2;
      let y := 1000 * y1 + 100 * y2 + 10 * y3 + y4 in
      let m := 10 * m1 + m2 in
      let d := 10 * d1 + d2 in
      if (1 <=? y) && (1 <=? m) && (m <=? 12) && (1 <=? d) && (d <=? days_in_month y m)
      then Some (toordinal y m d) else None
  | _ => None
  end.

(** The (year, month, day) of a day ordinal. *)
Definition fromordinal (n : Z) : Z * Z * Z :=
  let z := n + 305 in
  let era := z / 146097 in
  let doe := z - era * 146097 in
  let yoe := (doe - doe / 1460 + doe / 36524 - doe / 146096) / 365 in
  let doy := doe - (365 * yoe + yoe / 4 - yoe / 100) in
  let mp := (5 * doy + 2) / 153 in
  let d := doy - (153 * mp + 2) / 5 + 1 in
  let m := if mp <? 10 then mp + 3 else mp - 9 in
  let y := yoe + era * 400 + (if m <=? 2 then 1 else 0) in
  (y, m, d).

Definition digit_char (n : Z) : string :=
  String (ascii_of_nat (Z.to_nat (48 + n mod 10))) EmptyString.

Definition two_digits (n : Z) : string := digit_char (n / 10) +:+ digit_char n.

Definition isoformat (n : date) : string :=
  let '(y, m, d) := fromordinal n in
  digit_char (y / 1000) +:+ digit_char (y / 100) +:+ two_digits y
  +:+ "-" +:+ two_digits m +:+ "-" +:+ two_digits d.

End Calendar.

Module Demo.

Definition show (v : value) : string :=
  match v with
  | VNone => "None"
  | VBool true => "True"
  | VBool false => "False"
  | VInt n => pretty n
  | VFloat q => pretty (Qnum (this q)) +:+ "/" +:+ pretty (Zpos (Qden (this q)))
  | VStr s => s
  end.

Definition float (num : Z) (den : positive) : value := VFloat (Q2Qc (num # den)).

(** London: 51.5074 N, 0.1278 W; 11.5 degrees today. *)
Definition london_now : weather_data :=
  {| coord_lat := float 515074 10000;
     coord_lon := float (-1278) 10000;
     main_temp := float 115 10;
     weather0_description := VStr "light rain" |}.

(** The forecast for day [d]: the temperature depends on the day. *)
Definition london_forecast (d : date) : weather_data :=
  {| coord_lat := float 515074 10000;
     coord_lon := float (-1278) 10000;
     main_temp := VInt (d mod 7 + 8);
     weather0_description := VStr "scattered clouds" |}.

(** Today is 2026-11-04 and the providers answer every call. *)
Definition env_up : env :=
  {| today := Calendar.toordinal 2026 11 4;
     fromisoformat := Calendar.fromisoformat;
     isoformat := Calendar.isoformat;
     str := show;
     get_weather_by_city := fun _ _ _ => Some london_now;
     get_forecast_by_date_and_city := fun _ d _ _ => Some (london_forecast d);
     search_youtube_videos := fun _ _ _ => Some ["a video"; "another video"] |}.

(** The same day, with the weather provider failing every call. *)
Definition env_down : env :=
  {| today := Calendar.toordinal 2026 11 4;
     fromisoformat := Calendar.fromisoformat;
     isoformat := Calendar.isoformat;
     str := show;
     get_weather_by_city := fun _ _ _ => None;
     get_forecast_by_date_and_city := fun _ _ _ _ => None;
     search_youtube_videos := fun _ _ _ => None |}.

(** The forecast fails for 2026-11-06 and later days. *)
Definition env_flaky : env :=
  {| today := Calendar.toordinal 2026 11 4;
     fromisoformat := Calendar.fromisoformat;
     isoformat := Calendar.isoformat;
     str := show;
     get_weather_by_city := fun _ _ _ => Some london_now;
     get_forecast_by_date_and_city := fun _ d _ _ =>
       if d <? Calendar.toordinal 2026 11 6 then Some (london_forecast d) else None;
     search_youtube_videos := fun _ _ _ => Some [] |}.

Definition empty_db : database := {| locations := []; weather_infos := [] |}.

Definition start_world : world := {| db := empty_db; trace := [] |}.

Definition london_request (start_date end_date : string) : dict :=
  {[ "city" := VStr "London"; "country" := VStr "GB";
     "start_date" := VStr start_date; "end_date" := VStr end_date ]}.

(** A day of November 2026. *)
Definition nov (d : Z) : date := Calendar.toordinal 2026 11 d.

Definition london : WeatherLocation :=
  {| loc_id := 1; loc_city := VStr "London"; loc_country := VStr "GB";
     loc_lat := coord_lat london_now; loc_lon := coord_lon london_now |}.

(** Yesterday's record of London, with a raw-data payload. *)
Definition london_record : WeatherInfo :=
  {| info_id := 1; info_location_id := 1; info_date := nov 3;
     info_temperature := VInt 9; info_weather_description := VStr "mist";
     info_raw_data := VStr "{}" |}.

(** London is stored, with one record, and nothing was called yet. *)
Definition london_world : world :=
  {| db := {| locations := [london]; weather_infos := [london_record] |};
     trace := [] |}.

(** A create-location request for London that leaves the coordinates out. *)
Definition london_location : dict :=
  {[ "city" := VStr "London"; "country" := VStr "GB" ]}.

(** A create-location request for Quito with both coordinates; the
    latitude is 0.25 degrees south. *)
Definition quito_location : dict :=
  {[ "city" := VStr "Quito"; "country" := VStr "EC";
     "lat" := float (-25) 100; "lon" := float (-785) 10 ]}.

End Demo.


(** ** Notions the properties are stated with *)

(** The dates from [start] to [end_], both included, in ascending order. *)
Definition date_range (start end_ : date) : list date :=
  seqZ start (end_ + 1 - start).

(** [input] passes the validation of [create_info] and names the dates
    [start] and [end_]: the three fields are present, both dates parse,
    [start] is not after [end_], and both lie between today and five days
    from today. *)
Record validated (E : env) (input : dict) (start end_ : date) : Prop := {
  city_present : truthy (dict_get input "city") = true;
  start_present : truthy (dict_get input "start_date") = true;
  end_present : truthy (dict_get input "end_date") = true;
  start_parses : date_fromisoformat E (dict_get input "start_date") = Date start;
  end_parses : date_fromisoformat E (dict_get input "end_date") = Date end_;
  start_le_end : start ≤ end_;
  start_in_window : today E ≤ start ≤ today E + 5;
  end_in_window : today E ≤ end_ ≤ today E + 5 }.

(** The current-weather call for (city, country) succeeds whenever made. *)
Definition weather_answers (E : env) (city country : value) : Prop :=
  ∀ h, is_Some (get_weather_by_city E h city country).

(** The forecast call for (city, country) succeeds whenever made for a date
    from [start] to [end_]. *)
Definition forecast_answers (E : env) (city country : value) (start end_ : date) : Prop :=
  ∀ h d, start ≤ d ≤ end_ → is_Some (get_forecast_by_date_and_city E h d city country).

(** The number of WeatherInfo rows of a (location, date) pair. *)
Definition rows_of (location_id : Z) (d : date) (b : database) : nat :=
  length (filter (fun i => same_loc_date location_id d i = true) (weather_infos b)).

(** The record [ingest_date] stores for [current] from the response [data]. *)
Definition fetched_info (b : database) (loc : WeatherLocation) (current : date)
    (data : weather_data) : WeatherInfo :=
  {| info_id := next_id (map info_id (weather_infos b));
     info_location_id := loc_id loc;
     info_date := current;
     info_temperature := main_temp data;
     info_weather_description := weather0_description data;
     info_raw_data := VNone |}.

(** The provider call [ingest_date] makes for [current]: current weather
    for today, the forecast of the date otherwise. *)
Definition fetch_call (E : env) (city country : value) (current : date) : event :=
  if bool_decide (current = today E)
  then WeatherByCity city country
  else ForecastByDateAndCity current city country.

(** What the provider answers to that call after the calls [h]. *)
Definition fetch_response (E : env) (h : list event) (city country : value)
    (current : date) : option weather_data :=
  if bool_decide (current = today E)
  then get_weather_by_city E h city country
  else get_forecast_by_date_and_city E h current city country.

(** The events of the loop of [create_info] over the dates from [lo] to
    [hi]: reads and writes of the data-access layer, the current weather
    (when today is one of the dates) and forecasts of other dates of the
    range, all for (city, country). *)
Definition loop_event (E : env) (city country : value) (lo hi : date) (e : event) : Prop :=
  match e with
  | WeatherByCity c k => c = city ∧ k = country ∧ lo ≤ today E ≤ hi
  | ForecastByDateAndCity d c k =>
      c = city ∧ k = country ∧ lo ≤ d ≤ hi ∧ d ≠ today E
  | YoutubeSearch _ _ => False
  | Crud (GetInfoByLocDate _ d) => lo ≤ d ≤ hi
  | Crud (CreateInfo _ d _ _) => lo ≤ d ≤ hi
  | Crud _ => False
  end.

(** A row the loop creates for [loc] over the dates from [lo] to [hi]. *)
Definition loop_row (loc : WeatherLocation) (lo hi : date) (i : WeatherInfo) : Prop :=
  info_raw_data i = VNone ∧ info_location_id i = loc_id loc ∧ lo ≤ info_date i ≤ hi.

(** The location [crud.create_location] stores in the database [b]. *)
Definition new_location (b : database) (city country lat lon : value) : WeatherLocation :=
  {| loc_id := next_id (map loc_id (locations b));
     loc_city := city; loc_country := country; loc_lat := lat; loc_lon := lon |}.

(** The messages of the five validation failures of [create_info]. *)
Definition msg_required : string := "city, start_date, and end_date are required".
Definition msg_format : string := "Invalid date format. Use YYYY-MM-DD".
Definition msg_order : string := "start_date must be before end_date".
Definition msg_past : string := "Historical data is not supported in free OpenWeather API".
Definition msg_horizon : string := "Max 5 days forecast supported in free OpenWeather API".

(** The three required fields of an ingestion request are present. *)
Definition present (input : dict) : bool :=
  truthy (dict_get input "city") && truthy (dict_get input "start_date")
  && truthy (dict_get input "end_date").

(** The events of an ingestion for (city, country): calls to the
    data-access layer, the current weather, and forecasts of dates strictly
    after today and at most five days ahead. *)
Definition ingestion_event (E : env) (city country : value) (e : event) : Prop :=
  match e with
  | WeatherByCity c k => c = city ∧ k = country
  | ForecastByDateAndCity d c k =>
      c = city ∧ k = country ∧ today E < d ≤ today E + 5
  | YoutubeSearch _ _ => False
  | Crud _ => True
  end.



(** The messages of the two failures of [create_location]. *)
Definition msg_city_required : string := "city is required".
Definition msg_exists : string := "Location already exists".

(** Both coordinates of a create-location request are truthy. *)
Definition coordinates_given (location : dict) : bool :=
  truthy (dict_get location "lat") && truthy (dict_get location "lon").

(** A location with the pair (city, country) is stored. *)
Definition stored (city country : value) (b : database) : Prop :=
  ∃ l, l ∈ locations b ∧ loc_city l = city ∧ loc_country l = country.

(** The coordinates of a create-location request are at hand in the world
    [w]: the request gives both, or the provider answers the lookup of its
    city made after the calls of [w]. *)
Definition coordinates_resolved (E : env) (location : dict) (w : world) : Prop :=
  coordinates_given location = true
  ∨ is_Some (get_weather_by_city E (trace w) (dict_get location "city")
               (dict_get location "country")).

(** The provider answers the call [e] when it is made after the calls
    [h]; a call to the data-access layer always returns. *)
Definition answered (E : env) (h : list event) (e : event) : bool :=
  match e with
  | WeatherByCity c k => bool_decide (is_Some (get_weather_by_city E h c k))
  | ForecastByDateAndCity d c k =>
      bool_decide (is_Some (get_forecast_by_date_and_city E h d c k))
  | YoutubeSearch q n => bool_decide (is_Some (search_youtube_videos E h q n))
  | Crud _ => true
  end.

(** Every call of [t], made in this order after the calls [h], is
    answered. *)
Fixpoint answered_all (E : env) (h t : list event) : bool :=
  match t with
  | [] => true
  | e :: t' => answered E h e && answered_all E (h ++ [e]) t'
  end.

(** ** Notions the further properties are stated with *)

(** 1 when the outcome is a failure of a provider, 0 otherwise. *)
Definition provider_failed {A : Type} (r : result A) : nat :=
  match r with
  | Raise CollaboratorError => 1
  | _ => 0
  end.

(** The dates looked up by the [crud.get_info_by_loc_date] calls of a
    trace, in the order of the calls. *)
Definition lookup_dates (t : list event) : list date :=
  omap (fun e => match e with
                 | Crud (GetInfoByLocDate _ d) => Some d
                 | _ => None
                 end) t.

(** What the weather provider answers to the call [e] made after the calls
    [h]. *)
Definition weather_response (E : env) (h : list event) (e : event) : option weather_data :=
  match e with
  | WeatherByCity c k => get_weather_by_city E h c k
  | ForecastByDateAndCity d c k => get_forecast_by_date_and_city E h d c k
  | _ => None
  end.

(** The calls of the data-access layer that insert a row. *)
Definition is_insert (c : crud_call) : bool :=
  match c with
  | CreateLocation _ _ _ _ | CreateInfo _ _ _ _ => true
  | _ => false
  end.

(** The insert [c] stores what the response [data] holds: its coordinates
    for a location, its temperature and description for a WeatherInfo. *)
Definition stores (c : crud_call) (data : weather_data) : bool :=
  match c with
  | CreateLocation _ _ lat lon =>
      bool_decide (lat = coord_lat data ∧ lon = coord_lon data)
  | CreateInfo _ _ temperature weather_description =>
      bool_decide (temperature = main_temp data
                   ∧ weather_description = weather0_description data)
  | _ => false
  end.

(** In the calls [t], made after the calls [h], weather fetches and inserts
    go in pairs: an answered fetch is followed at once by the insert that
    stores its response, a fetch that is not answered is the last call, and
    there is no other insert and no video search. *)
Fixpoint paired (E : env) (h t : list event) : bool :=
  match t with
  | [] => true
  | Crud c :: t1 => negb (is_insert c) && paired E (h ++ [Crud c]) t1
  | YoutubeSearch _ _ :: _ => false
  | e :: t1 =>
      match weather_response E h e, t1 with
      | Some data, Crud c :: t2 => stores c data && paired E (h ++ [e; Crud c]) t2
      | None, [] => true
      | _, _ => false
      end
  end.

(** The collaborator calls a request may make: the data-access layer for
    any request; the current weather of the request's own city and country
    for create-location; the calls of an ingestion for ingestion; the video
    search, with the request's bound, for the videos endpoint. *)
Definition allowed_call (E : env) (r : request) (e : event) : Prop :=
  match e with
  | Crud _ => True
  | _ =>
      match r with
      | PostLocations location =>
          e = WeatherByCity (dict_get location "city") (dict_get location "country")
      | PostWeatherInfos input =>
          ingestion_event E (dict_get input "city") (dict_get input "country") e
      | GetVideos _ max_results => ∃ query, e = YoutubeSearch query max_results
      | _ => False
      end
  end.

(** No two stored locations have the same (city, country) pair. *)
Definition unique_locations (b : database) : Prop :=
  NoDup ((fun l => (loc_city l, loc_country l)) <$> locations b).

(** Every (location, date) pair has at most one WeatherInfo row. *)
Definition unique_rows (b : database) : Prop :=
  ∀ l d, (rows_of l d b ≤ 1)%nat.

(** The location a record references is stored. *)
Definition has_location (b : database) (i : WeatherInfo) : Prop :=
  is_Some (find (fun l => bool_decide (loc_id l = info_location_id i)) (locations b)).

(** Every stored record references a stored location. *)
Definition integrity (b : database) : Prop :=
  Forall (has_location b) (weather_infos b).

(** The row [export_json] builds for a record and its location. *)
Definition export_row_of (E : env) (i : WeatherInfo) (l : WeatherLocation) : export_row :=
  {| row_id := info_id i;
     row_date := isoformat E (info_date i);
     row_temperature := info_temperature i;
     row_description := info_weather_description i;
     row_location :=
       {| el_id := loc_id l; el_city := loc_city l; el_country := loc_country l;
          el_lat := loc_lat l; el_lon := loc_lon l |} |}.

(** The query [get_location_videos] sends for a location. *)
Definition video_query (E : env) (l : WeatherLocation) : string :=
  ("weather in " +:+ str E (loc_city l))
  +:+ (if truthy (loc_country l) then ", " +:+ str E (loc_country l) else "").

(** ** Running the monad *)

Lemma bind_run {A B : Type} (m : M A) (f : A -> M B) (w : world) :
  (x ← m; f x) w =
  match m w with
  | (Ok a, w') => f a w'
  | (Raise e, w') => (Raise e, w')
  end.
Proof. reflexivity. Qed.

Lemma ret_run {A : Type} (a : A) (w : world) : (mret a : M A) w = (Ok a, w).
Proof. reflexivity. Qed.

Lemma raise_run {A : Type} (e : exn) (w : world) : (raise e : M A) w = (Raise e, w).
Proof. reflexivity. Qed.

(** ** Lists of records *)

Lemma find_app_Some {A : Type} (p : A -> bool) (l l' : list A) (x : A) :
  find p l = Some x → find p (l ++ l') = Some x.
Proof.
  induction l as [|a l IH]; cbn; [discriminate|].
  destruct (p a); auto.
Qed.

Lemma find_app_None {A : Type} (p : A -> bool) (l l' : list A) :
  find p l = None → find p (l ++ l') = find p l'.
Proof.
  induction l as [|a l IH]; cbn; [reflexivity|].
  destruct (p a); [discriminate | auto].
Qed.

Lemma find_Some_holds {A : Type} (p : A -> bool) (l : list A) (x : A) :
  find p l = Some x → p x = true ∧ x ∈ l.
Proof.
  intros H. apply find_some in H as [Hin Hp].
  split; [exact Hp | by apply list_elem_of_In].
Qed.

Lemma filter_find_None {A : Type} (p : A -> bool) (l : list A) :
  find p l = None → filter (fun x => p x = true) l = [].
Proof.
  induction l as [|a l IH]; cbn [find]; [reflexivity|].
  destruct (p a) eqn:Hp; [discriminate|].
  intros H. rewrite filter_cons_False by congruence. auto.
Qed.

Lemma date_range_nil start end_ : end_ < start → date_range start end_ = [].
Proof. intros H. unfold date_range. apply seqZ_nil. lia. Qed.

Lemma date_range_cons start end_ :
  start ≤ end_ → date_range start end_ = start :: date_range (start + 1) end_.
Proof.
  intros H. unfold date_range. rewrite seqZ_cons by lia.
  f_equal. f_equal; lia.
Qed.

Lemma date_range_length start end_ :
  start ≤ end_ → length (date_range start end_) = S (Z.to_nat (end_ - start)).
Proof. intros H. unfold date_range. rewrite length_seqZ. lia. Qed.

(** ** The ingestion loop *)

Section Loop.

Context (E : env).

Lemma ingest_loop_eq loc city country end_ current infos :
  ingest_loop E loc city country end_ current infos =
  if decide (current ≤ end_)
  then info ← ingest_date E loc city country current;
       ingest_loop E loc city country end_ (current + 1) (infos ++ [info])
  else mret infos.
Proof. simp ingest_loop. destruct (decide (current ≤ end_)); reflexivity. Qed.

(** One date: the record is reused, or fetched and stored, or the provider
    fails. *)
Lemma ingest_date_run loc city country current w :
  ingest_date E loc city country current w =
  let look := Crud (GetInfoByLocDate (loc_id loc) current) in
  match find (same_loc_date (loc_id loc) current) (weather_infos (db w)) with
  | Some i => (Ok i, log look w)
  | None =>
      match fetch_response E (trace w ++ [look]) city country current with
      | Some data =>
          let i := fetched_info (db w) loc current data in
          (Ok i,
           {| db := set_infos (weather_infos (db w) ++ [i]) (db w);
              trace := trace w ++
                [look; fetch_call E city country current;
                 Crud (CreateInfo (loc_id loc) current (main_temp data)
                         (weather0_description data))] |})
      | None =>
          (Raise CollaboratorError,
           {| db := db w;
              trace := trace w ++ [look; fetch_call E city country current] |})
      end
  end.
Proof.
  unfold ingest_date, fetch_response, fetch_call.
  cbv [mbind M_bind mret M_ret crud.get_info_by_loc_date crud.create_info crud.run
       weather_by_city forecast_by_date_and_city log].
  cbn [db trace].
  destruct (find _ _); [reflexivity|].
  destruct (bool_decide (current = today E)); cbn [db trace].
  - destruct (get_weather_by_city _ _ _ _); cbn [db trace];
      rewrite <- !app_assoc; reflexivity.
  - destruct (get_forecast_by_date_and_city _ _ _ _ _); cbn [db trace];
      rewrite <- !app_assoc; reflexivity.
Qed.

(** Rule induction on a run of the loop. *)
Lemma ingest_loop_ind loc city country end_
    (P : date → list WeatherInfo → world → result (list WeatherInfo) → world → Prop) :
  (∀ current acc w, end_ < current → P current acc w (Ok acc) w) →
  (∀ current acc w e w1,
      current ≤ end_ →
      ingest_date E loc city country current w = (Raise e, w1) →
      P current acc w (Raise e) w1) →
  (∀ current acc w i w1 r w2,
      current ≤ end_ →
      ingest_date E loc city country current w = (Ok i, w1) →
      ingest_loop E loc city country end_ (current + 1) (acc ++ [i]) w1 = (r, w2) →
      P (current + 1) (acc ++ [i]) w1 r w2 →
      P current acc w r w2) →
  ∀ current acc w r w2,
    ingest_loop E loc city country end_ current acc w = (r, w2) →
    P current acc w r w2.
Proof.
  intros Hstop Hfail Hstep current acc w r w2.
  remember (Z.to_nat (end_ + 1 - current)) as n eqn:Hn.
  revert current acc w Hn.
  induction n as [|n IH]; intros current acc w Hn; rewrite ingest_loop_eq.
  - destruct (decide (current ≤ end_)); [lia|].
    rewrite ret_run. intros [= <- <-]. apply Hstop. lia.
  - destruct (decide (current ≤ end_)); [|lia].
    rewrite bind_run.
    destruct (ingest_date E loc city country current w) as [[i|e] w1] eqn:Hd.
    + intros Hrest. eapply Hstep; eauto. apply IH; [lia | exact Hrest].
    + intros [= <- <-]. by apply Hfail.
Qed.

Lemma ingest_date_inv loc city country current w r w1 :
  ingest_date E loc city country current w = (r, w1) →
  let look := Crud (GetInfoByLocDate (loc_id loc) current) in
  let call := fetch_call E city country current in
  (∃ i, find (same_loc_date (loc_id loc) current) (weather_infos (db w)) = Some i
        ∧ r = Ok i ∧ db w1 = db w ∧ trace w1 = trace w ++ [look])
  ∨ (find (same_loc_date (loc_id loc) current) (weather_infos (db w)) = None
     ∧ ∃ data, fetch_response E (trace w ++ [look]) city country current = Some data
        ∧ r = Ok (fetched_info (db w) loc current data)
        ∧ db w1 = set_infos (weather_infos (db w)
                             ++ [fetched_info (db w) loc current data]) (db w)
        ∧ trace w1 = trace w ++
            [look; call;
             Crud (CreateInfo (loc_id loc) current (main_temp data)
                     (weather0_description data))])
  ∨ (find (same_loc_date (loc_id loc) current) (weather_infos (db w)) = None
     ∧ fetch_response E (trace w ++ [look]) city country current = None
     ∧ r = Raise CollaboratorError ∧ db w1 = db w
     ∧ trace w1 = trace w ++ [look; call]).
Proof.
  rewrite ingest_date_run. cbv zeta.
  destruct (find _ _) as [i|] eqn:Hf.
  - intros [= <- <-]. left. by exists i.
  - destruct (fetch_response _ _ _ _ _) as [data|] eqn:Hr; intros [= <- <-].
    + right; left. split; [done|]. by exists data.
    + right; right. done.
Qed.

Lemma fetch_call_loop_event city country current end_ :
  current ≤ end_ → loop_event E city country current end_ (fetch_call E city country current).
Proof.
  intros H. unfold fetch_call. case_bool_decide; cbn; repeat split; try done; lia.
Qed.

Lemma loop_event_weaken city country lo lo' hi e :
  lo' ≤ lo → loop_event E city country lo hi e → loop_event E city country lo' hi e.
Proof.
  intros H. destruct e as [| | |[]]; cbn; try done; intros; destruct_and?;
    repeat split; try done; lia.
Qed.

Lemma loop_row_weaken loc lo lo' hi i :
  lo' ≤ lo → loop_row loc lo hi i → loop_row loc lo' hi i.
Proof. unfold loop_row. intros H (? & ? & ?). repeat split; try done; lia. Qed.

(** What a run of the loop does to the world, whatever its outcome: the
    locations stay, rows are only added at the end, the trace grows, and the
    only failure is a failure of the provider. *)
Lemma ingest_loop_effect loc city country end_ current acc w r w2 :
  ingest_loop E loc city country end_ current acc w = (r, w2) →
  locations (db w2) = locations (db w)
  ∧ (∃ added, weather_infos (db w2) = weather_infos (db w) ++ added
              ∧ Forall (loop_row loc current end_) added)
  ∧ (∃ t, trace w2 = trace w ++ t
          ∧ Forall (loop_event E city country current end_) t)
  ∧ (∀ e, r = Raise e → e = CollaboratorError).
Proof.
  revert current acc w r w2. apply ingest_loop_ind.
  - intros current acc w _. split; [done|]. split; [|split].
    + exists []. by rewrite app_nil_r.
    + exists []. by rewrite app_nil_r.
    + discriminate.
  - intros current acc w e w1 Hle Hd.
    apply ingest_date_inv in Hd as [(i & _ & ? & _)|[(_ & data & _ & ? & _)|(_ & _ & He & Hdb & Ht)]];
      try discriminate.
    rewrite Hdb. split; [done|]. split; [|split].
    + exists []. by rewrite app_nil_r.
    + eexists. split; [exact Ht|].
      constructor; [cbn; lia|].
      constructor; [by apply fetch_call_loop_event | constructor].
    + congruence.
  - intros current acc w i w1 r w2 Hle Hd _ (Hl & (added & Ha & HFa) & (t & Ht & HFt) & Hr).
    assert (Hwa : Forall (loop_row loc current end_) added).
    { eapply Forall_impl; [exact HFa|]. intros ?. apply loop_row_weaken. lia. }
    assert (Hwt : Forall (loop_event E city country current end_) t).
    { eapply Forall_impl; [exact HFt|]. intros ?. apply loop_event_weaken. lia. }
    apply ingest_date_inv in Hd as [(i' & _ & _ & Hdb & Ht1)|[(_ & data & _ & _ & Hdb & Ht1)|(_ & _ & ? & _)]];
      try discriminate.
    + rewrite Hl, Ha, Ht, Hdb, Ht1. split; [done|]. split; [|split]; [eauto| |done].
      eexists. rewrite <- app_assoc. split; [done|].
      constructor; [cbn; lia | done].
    + rewrite Hl, Ha, Ht, Hdb, Ht1. cbn [set_infos locations weather_infos].
      split; [done|]. split; [|split]; [| |done].
      * eexists. rewrite <- app_assoc. split; [done|].
        constructor; [|done]. unfold loop_row, fetched_info; cbn. repeat split; lia.
      * eexists. rewrite <- app_assoc. split; [done|].
        constructor; [cbn; lia|].
        constructor; [by apply fetch_call_loop_event|].
        constructor; [cbn; lia | done].
Qed.

Lemma rows_of_append l d b i :
  rows_of l d (set_infos (weather_infos b ++ [i]) b) =
  (rows_of l d b + if same_loc_date l d i then 1 else 0)%nat.
Proof.
  unfold rows_of. cbn [set_infos weather_infos].
  rewrite filter_app, length_app. f_equal.
  destruct (same_loc_date l d i) eqn:Hs.
  - by rewrite filter_cons_True.
  - rewrite filter_cons_False by congruence. done.
Qed.

Lemma rows_of_find_None l d b :
  find (same_loc_date l d) (weather_infos b) = None → rows_of l d b = 0%nat.
Proof. intros H. unfold rows_of. by rewrite filter_find_None. Qed.

Lemma rows_of_find_Some l d b i :
  find (same_loc_date l d) (weather_infos b) = Some i → (1 ≤ rows_of l d b)%nat.
Proof.
  unfold rows_of. induction (weather_infos b) as [|a rows IH]; cbn [find]; [discriminate|].
  destruct (same_loc_date l d a) eqn:Hs.
  - intros _. rewrite filter_cons_True by done. cbn. lia.
  - intros H. rewrite filter_cons_False by congruence. auto.
Qed.

Lemma same_loc_date_fetched l d b loc current data :
  same_loc_date l d (fetched_info b loc current data) = true ↔
  l = loc_id loc ∧ d = current.
Proof.
  unfold same_loc_date, fetched_info. cbn. rewrite bool_decide_eq_true.
  split; intros [-> ->]; done.
Qed.

(** A run of the loop adds at most one row per date of the range, and none
    for a date that has one. *)
Lemma ingest_loop_rows loc city country end_ current acc w r w2 :
  ingest_loop E loc city country end_ current acc w = (r, w2) →
  ∀ l d,
    rows_of l d (db w2) = rows_of l d (db w)
    ∨ (rows_of l d (db w) = 0%nat ∧ rows_of l d (db w2) = 1%nat
       ∧ l = loc_id loc ∧ current ≤ d ≤ end_).
Proof.
  revert current acc w r w2.
  apply (ingest_loop_ind loc city country end_
           (fun current acc w r w2 => ∀ l d,
              rows_of l d (db w2) = rows_of l d (db w)
              ∨ (rows_of l d (db w) = 0%nat ∧ rows_of l d (db w2) = 1%nat
                 ∧ l = loc_id loc ∧ current ≤ d ≤ end_))).
  - intros; by left.
  - intros current acc w e w1 Hle Hd l d.
    apply ingest_date_inv in Hd as [(i & _ & ? & _)|[(_ & data & _ & ? & _)|(_ & _ & _ & Hdb & _)]];
      try discriminate.
    left. by rewrite Hdb.
  - intros current acc w i w1 r w2 Hle Hd _ IH l d.
    apply ingest_date_inv in Hd as [(i' & _ & _ & Hdb & _)|[(Hf & data & _ & _ & Hdb & _)|(_ & _ & ? & _)]];
      try discriminate.
    + rewrite <- Hdb. destruct (IH l d) as [->|(? & ? & ? & ?)]; [by left|].
      right. repeat split; try done; lia.
    + specialize (IH l d). rewrite Hdb, rows_of_append in IH.
      destruct (same_loc_date l d (fetched_info (db w) loc current data)) eqn:Hs.
      * apply same_loc_date_fetched in Hs as [-> ->].
        apply rows_of_find_None in Hf. rewrite Hf in IH |- *.
        right. destruct IH as [->|(? & _)]; [|done].
        repeat split; try done; lia.
      * rewrite Nat.add_0_r in IH.
        destruct IH as [->|(? & ? & ? & ?)]; [by left|].
        right. repeat split; try done; lia.
Qed.

(** The sequence a run of the loop returns: after the records it started
    with, the record of each date of the range, in order, each the one the
    database now gives for its date. *)
Lemma ingest_loop_result loc city country end_ current acc w infos w2 :
  ingest_loop E loc city country end_ current acc w = (Ok infos, w2) →
  ∃ new, infos = acc ++ new
    ∧ Forall2 (fun d i =>
                 find (same_loc_date (loc_id loc) d) (weather_infos (db w2)) = Some i)
              (date_range current end_) new.
Proof.
  revert infos. revert current acc w w2.
  cut (∀ current acc w r w2,
         ingest_loop E loc city country end_ current acc w = (r, w2) →
         ∀ infos, r = Ok infos →
           ∃ new, infos = acc ++ new
             ∧ Forall2 (fun d i =>
                 find (same_loc_date (loc_id loc) d) (weather_infos (db w2)) = Some i)
                 (date_range current end_) new).
  { intros H current acc w w2 infos Hrun. eapply H; eauto. }
  apply (ingest_loop_ind loc city country end_
           (fun current acc w r w2 => ∀ infos, r = Ok infos → _)).
  - intros current acc w Hlt infos [= <-]. exists [].
    rewrite app_nil_r, date_range_nil by done. split; [done | constructor].
  - discriminate.
  - intros current acc w i w1 r w2 Hle Hd Hrest IH infos ->.
    destruct (IH infos eq_refl) as (new & -> & HF).
    exists (i :: new). rewrite <- app_assoc. split; [done|].
    rewrite date_range_cons by done. constructor; [|done].
    apply ingest_loop_effect in Hrest as (_ & (added & -> & _) & _).
    apply find_app_Some.
    apply ingest_date_inv in Hd as [(i' & Hf & [= ->] & -> & _)|[(Hf & data & _ & [= ->] & -> & _)|(_ & _ & ? & _)]];
      try discriminate; [done|].
    cbn [set_infos weather_infos]. rewrite find_app_None by done.
    cbn [find]. by rewrite (proj2 (same_loc_date_fetched _ _ _ _ _ _)).
Qed.

(** When every date of the range has a record, the loop returns those
    records after reading each of them, and calls no provider. *)
Lemma ingest_loop_cached loc city country end_ new :
  ∀ current acc w,
    Forall2 (fun d i =>
               find (same_loc_date (loc_id loc) d) (weather_infos (db w)) = Some i)
            (date_range current end_) new →
    ingest_loop E loc city country end_ current acc w =
    (Ok (acc ++ new),
     {| db := db w;
        trace := trace w ++
          map (fun d => Crud (GetInfoByLocDate (loc_id loc) d)) (date_range current end_) |}).
Proof.
  induction new as [|i new IH]; intros current acc w HF; rewrite ingest_loop_eq.
  - apply Forall2_nil_inv_r in HF.
    destruct (decide (current ≤ end_)) as [Hle|Hgt].
    { rewrite date_range_cons in HF by done. discriminate. }
    rewrite ret_run, HF, !app_nil_r. by destruct w.
  - destruct (decide (current ≤ end_)) as [Hle|Hgt].
    2:{ rewrite date_range_nil in HF by lia. inversion HF. }
    rewrite date_range_cons in HF |- * by done.
    apply Forall2_cons_1 in HF as [Hf HF].
    rewrite bind_run, ingest_date_run, Hf. cbv beta iota zeta.
    rewrite (IH (current + 1) (acc ++ [i]) (log _ w)) by exact HF.
    cbn [log db trace map]. by rewrite <- !app_assoc.
Qed.

(** When the providers answer, the loop returns. *)
Lemma ingest_loop_returns loc city country end_ :
  weather_answers E city country →
  ∀ n current acc w,
    Z.to_nat (end_ + 1 - current) = n →
    forecast_answers E city country current end_ →
    ∃ infos w2, ingest_loop E loc city country end_ current acc w = (Ok infos, w2).
Proof.
  intros Hw. induction n as [|n IH]; intros current acc w Hn Hfc; rewrite ingest_loop_eq.
  - destruct (decide (current ≤ end_)); [lia|]. rewrite ret_run. eauto.
  - destruct (decide (current ≤ end_)) as [Hle|]; [|lia].
    assert (Hnext : forecast_answers E city country (current + 1) end_).
    { intros h d Hd. apply Hfc. lia. }
    rewrite bind_run, ingest_date_run. cbv zeta.
    destruct (find _ _); [cbv beta iota; apply IH; [lia | done]|].
    assert (Hr : is_Some (fetch_response E
                            (trace w ++ [Crud (GetInfoByLocDate (loc_id loc) current)])
                            city country current)).
    { unfold fetch_response. case_bool_decide; [apply Hw | apply Hfc; lia]. }
    destruct Hr as [data ->]. cbv beta iota. apply IH; [lia | done].
Qed.

Lemma fetch_call_inj city country d d' :
  fetch_call E city country d = fetch_call E city country d' → d = d'.
Proof.
  unfold fetch_call. repeat case_bool_decide; try discriminate; [congruence|].
  by intros [= ->].
Qed.

Lemma fetch_call_not_crud city country d c : fetch_call E city country d ≠ Crud c.
Proof. unfold fetch_call. by case_bool_decide. Qed.

(** A date that has a record when the loop starts is not fetched. *)
Lemma ingest_loop_no_refetch loc city country end_ current acc w r w2 :
  ingest_loop E loc city country end_ current acc w = (r, w2) →
  ∀ d i,
    find (same_loc_date (loc_id loc) d) (weather_infos (db w)) = Some i →
    ∃ t, trace w2 = trace w ++ t ∧ fetch_call E city country d ∉ t.
Proof.
  revert current acc w r w2.
  apply (ingest_loop_ind loc city country end_
           (fun current acc w r w2 => ∀ d i,
              find (same_loc_date (loc_id loc) d) (weather_infos (db w)) = Some i →
              ∃ t, trace w2 = trace w ++ t ∧ fetch_call E city country d ∉ t)).
  - intros current acc w _ d i _. exists []. rewrite app_nil_r. split; [done|].
    apply not_elem_of_nil.
  - intros current acc w e w1 Hle Hd d i Hf.
    apply ingest_date_inv in Hd as [(i' & _ & ? & _)|[(_ & data & _ & ? & _)|(Hn & _ & _ & _ & Ht)]];
      try discriminate.
    eexists. split; [exact Ht|].
    rewrite !not_elem_of_cons. split; [apply fetch_call_not_crud|].
    split; [|apply not_elem_of_nil].
    intros Heq. apply fetch_call_inj in Heq as ->. congruence.
  - intros current acc w i0 w1 r w2 Hle Hd _ IH d i Hf.
    apply ingest_date_inv in Hd as [(i' & _ & _ & Hdb & Ht1)|[(Hn & data & _ & _ & Hdb & Ht1)|(_ & _ & ? & _)]];
      try discriminate.
    + destruct (IH d i) as (t & Ht & Hnot); [by rewrite Hdb|].
      eexists. rewrite Ht, Ht1, <- app_assoc. split; [done|].
      rewrite not_elem_of_app, not_elem_of_cons.
      split; [|done]. split; [apply fetch_call_not_crud|].
      apply not_elem_of_nil.
    + destruct (IH d i) as (t & Ht & Hnot).
      { rewrite Hdb. cbn [set_infos weather_infos]. by apply find_app_Some. }
      eexists. rewrite Ht, Ht1, <- app_assoc. split; [done|].
      rewrite not_elem_of_app, !not_elem_of_cons.
      split; [|done].
      split; [apply fetch_call_not_crud|].
      split; [|split; [apply fetch_call_not_crud|apply not_elem_of_nil]].
      intros Heq. apply fetch_call_inj in Heq as ->. congruence.
Qed.

End Loop.

(** ** Ingestion after validation *)

Section Ingestion.

Context (E : env).

Lemma same_city_new_location b city country lat lon :
  same_city city country (new_location b city country lat lon) = true.
Proof. unfold same_city, new_location. cbn. by rewrite bool_decide_eq_true. Qed.

Lemma fetch_and_store_run city country start end_ w :
  fetch_and_store E city country start end_ w =
  let look := Crud (GetLocationByCity city country) in
  match find (same_city city country) (locations (db w)) with
  | Some l => ingest_loop E l city country end_ start [] (log look w)
  | None =>
      match get_weather_by_city E (trace w ++ [look]) city country with
      | None =>
          (Raise CollaboratorError,
           {| db := db w; trace := trace w ++ [look; WeatherByCity city country] |})
      | Some data =>
          let l := new_location (db w) city country (coord_lat data) (coord_lon data) in
          ingest_loop E l city country end_ start []
            {| db := set_locations (locations (db w) ++ [l]) (db w);
               trace := trace w ++
                 [look; WeatherByCity city country;
                  Crud (CreateLocation city country (coord_lat data) (coord_lon data))] |}
      end
  end.
Proof.
  unfold fetch_and_store.
  cbv [mbind M_bind mret M_ret crud.get_location_by_city crud.create_location crud.run
       weather_by_city log new_location].
  cbn [db trace].
  destruct (find _ _); [reflexivity|].
  destruct (get_weather_by_city _ _ _ _); cbn [db trace];
    rewrite <- !app_assoc; reflexivity.
Qed.

(** The location a run of [fetch_and_store] works for, and the world its
    loop starts in. *)
Lemma fetch_and_store_inv city country start end_ w r w2 :
  fetch_and_store E city country start end_ w = (r, w2) →
  (r = Raise CollaboratorError ∧ db w2 = db w
   ∧ find (same_city city country) (locations (db w)) = None
   ∧ trace w2 = trace w ++ [Crud (GetLocationByCity city country);
                            WeatherByCity city country])
  ∨ ∃ loc w1 t,
      ingest_loop E loc city country end_ start [] w1 = (r, w2)
      ∧ find (same_city city country) (locations (db w1)) = Some loc
      ∧ weather_infos (db w1) = weather_infos (db w)
      ∧ trace w1 = trace w ++ t
      ∧ (find (same_city city country) (locations (db w)) = Some loc
         ∧ locations (db w1) = locations (db w)
         ∧ t = [Crud (GetLocationByCity city country)]
         ∨ find (same_city city country) (locations (db w)) = None
           ∧ locations (db w1) = locations (db w) ++ [loc]
           ∧ ∃ data,
               get_weather_by_city E (trace w ++ [Crud (GetLocationByCity city country)])
                 city country = Some data
               ∧ loc = new_location (db w) city country (coord_lat data) (coord_lon data)
               ∧ t = [Crud (GetLocationByCity city country);
                      WeatherByCity city country;
                      Crud (CreateLocation city country (coord_lat data) (coord_lon data))]).
Proof.
  rewrite fetch_and_store_run. cbv zeta.
  destruct (find _ _) as [l|] eqn:Hf.
  - intros Hrun. right. eexists l, (log (Crud (GetLocationByCity city country)) w), _.
    split; [exact Hrun|]. cbn [log db trace]. repeat split; try done. by left.
  - destruct (get_weather_by_city _ _ _ _) as [data|] eqn:Hw.
    + intros Hrun. right. eexists _, _, _. split; [exact Hrun|].
      cbn [db trace set_locations locations weather_infos].
      split; [|split; [done|split; [done|]]].
      * rewrite find_app_None by done. cbn [find].
        by rewrite same_city_new_location.
      * right. repeat split; try done. by exists data.
    + intros [= <- <-]. left. done.
Qed.

Lemma fetch_and_store_known city country start end_ w loc :
  find (same_city city country) (locations (db w)) = Some loc →
  fetch_and_store E city country start end_ w =
  ingest_loop E loc city country end_ start []
    (log (Crud (GetLocationByCity city country)) w).
Proof. intros Hf. by rewrite fetch_and_store_run, Hf. Qed.

(** What a run of [fetch_and_store] does to the world, whatever its
    outcome. *)
Lemma fetch_and_store_effect city country start end_ w r w2 :
  fetch_and_store E city country start end_ w = (r, w2) →
  (∃ added, weather_infos (db w2) = weather_infos (db w) ++ added
            ∧ Forall (fun i => info_raw_data i = VNone ∧ start ≤ info_date i ≤ end_) added)
  ∧ (∀ e, r = Raise e → e = CollaboratorError)
  ∧ (∀ l d, rows_of l d (db w2) = rows_of l d (db w)
            ∨ rows_of l d (db w) = 0%nat ∧ rows_of l d (db w2) = 1%nat).
Proof.
  intros Hrun. apply fetch_and_store_inv in Hrun
    as [(-> & Hdb & _)|(loc & w1 & t & Hloop & _ & Hi & _)].
  - rewrite Hdb. split; [|split].
    + exists []. by rewrite app_nil_r.
    + by intros e [= <-].
    + by left.
  - pose proof (ingest_loop_rows _ _ _ _ _ _ _ _ _ _ Hloop) as Hrows.
    apply ingest_loop_effect in Hloop as (_ & (added & Ha & HF) & _ & Hr).
    split; [|split; [done|]].
    + exists added. rewrite Ha, Hi. split; [done|].
      eapply Forall_impl; [exact HF|]. by intros i (? & _ & ?).
    + intros l d. unfold rows_of in *. rewrite <- Hi.
      destruct (Hrows l d) as [?|(? & ? & _)]; [by left | by right].
Qed.

(** The outcome of the validation of [create_info]: a failure that leaves
    the world as it is, or the run of [fetch_and_store]. *)
Lemma create_info_cases input w :
  (∃ e, create_info E input w = (Raise e, w)
        ∧ (e = TypeError
           ∨ ∃ detail, e = HTTPException 400 detail
               ∧ detail ∈ [msg_required; msg_format; msg_order; msg_past; msg_horizon]))
  ∨ ∃ start end_,
      validated E input start end_
      ∧ create_info E input w =
        fetch_and_store E (dict_get input "city") (dict_get input "country") start end_ w.
Proof.
  unfold create_info.
  destruct (truthy (dict_get input "city")) eqn:Hc; cbn [negb orb].
  2:{ left. eexists. split; [reflexivity|]. right. eexists. split; [reflexivity|].
      set_solver. }
  destruct (truthy (dict_get input "start_date")) eqn:Hs; cbn [negb orb].
  2:{ left. eexists. split; [reflexivity|]. right. eexists. split; [reflexivity|].
      set_solver. }
  destruct (truthy (dict_get input "end_date")) eqn:He; cbn [negb orb].
  2:{ left. eexists. split; [reflexivity|]. right. eexists. split; [reflexivity|].
      set_solver. }
  rewrite bind_run. unfold parse_dates.
  destruct (date_fromisoformat E (dict_get input "start_date")) as [start| |] eqn:Hps.
  2:{ left. eexists. split; [reflexivity|]. right. eexists. split; [reflexivity|].
      set_solver. }
  2:{ left. eexists. split; [reflexivity|]. by left. }
  destruct (date_fromisoformat E (dict_get input "end_date")) as [end_| |] eqn:Hpe.
  2:{ left. eexists. split; [reflexivity|]. right. eexists. split; [reflexivity|].
      set_solver. }
  2:{ left. eexists. split; [reflexivity|]. by left. }
  rewrite ret_run.
  case_bool_decide.
  { left. eexists. split; [reflexivity|]. right. eexists. split; [reflexivity|].
    set_solver. }
  destruct (bool_decide (start < today E) || bool_decide (end_ < today E)) eqn:Hpast.
  { left. eexists. split; [reflexivity|]. right. eexists. split; [reflexivity|].
    set_solver. }
  destruct (bool_decide (start > today E + 5) || bool_decide (end_ > today E + 5)) eqn:Hhor.
  { left. eexists. split; [reflexivity|]. right. eexists. split; [reflexivity|].
    set_solver. }
  right. exists start, end_. split; [|reflexivity].
  apply orb_false_iff in Hpast as [H1 H2], Hhor as [H3 H4].
  apply bool_decide_eq_false in H1, H2, H3, H4.
  constructor; try done; lia.
Qed.

End Ingestion.

(** ** Validation of the ingestion request *)

Section Validation.

Context (E : env).

Lemma create_info_missing_field input w :
  present input = false →
  create_info E input w = (Raise (HTTPException 400 msg_required), w).
Proof.
  unfold present, create_info. intros H.
  destruct (truthy (dict_get input "city")),
    (truthy (dict_get input "start_date")),
    (truthy (dict_get input "end_date")); try discriminate; reflexivity.
Qed.

Lemma create_info_checks input w start end_ :
  present input = true →
  date_fromisoformat E (dict_get input "start_date") = Date start →
  date_fromisoformat E (dict_get input "end_date") = Date end_ →
  create_info E input w =
  if bool_decide (start > end_) then (Raise (HTTPException 400 msg_order), w)
  else if bool_decide (start < today E) || bool_decide (end_ < today E)
  then (Raise (HTTPException 400 msg_past), w)
  else if bool_decide (start > today E + 5) || bool_decide (end_ > today E + 5)
  then (Raise (HTTPException 400 msg_horizon), w)
  else fetch_and_store E (dict_get input "city") (dict_get input "country") start end_ w.
Proof.
  unfold present, create_info. intros H Hs He.
  apply andb_true_iff in H as [H H3]. apply andb_true_iff in H as [H1 H2].
  rewrite H1, H2, H3. cbn [negb orb].
  rewrite bind_run. unfold parse_dates. rewrite Hs, He, ret_run.
  unfold msg_order, msg_past, msg_horizon, raise.
  destruct (bool_decide (start > end_)); [reflexivity|].
  destruct (bool_decide (start < today E) || bool_decide (end_ < today E));
    [reflexivity|].
  destruct (bool_decide (start > today E + 5) || bool_decide (end_ > today E + 5));
    reflexivity.
Qed.

(** A request that passes validation runs the ingestion proper. *)
Lemma create_info_validated input start end_ w :
  validated E input start end_ →
  create_info E input w =
  fetch_and_store E (dict_get input "city") (dict_get input "country") start end_ w.
Proof.
  intros Hv.
  assert (Hp : present input = true).
  { unfold present. by rewrite (city_present _ _ _ _ Hv), (start_present _ _ _ _ Hv),
      (end_present _ _ _ _ Hv). }
  pose proof (start_le_end _ _ _ _ Hv).
  pose proof (start_in_window _ _ _ _ Hv) as [? ?].
  pose proof (end_in_window _ _ _ _ Hv) as [? ?].
  rewrite (create_info_checks _ _ _ _ Hp (start_parses _ _ _ _ Hv) (end_parses _ _ _ _ Hv)).
  rewrite !bool_decide_eq_false_2 by lia. reflexivity.
Qed.

(** C5: an ingestion request whose dates parse and whose start date is
    strictly after its end date fails with a 400 "bad request" error and
    leaves the world exactly as it was: the database is unchanged and no
    collaborator was called, so no Location was looked up or created and no
    WeatherInfo was created. *)
Theorem create_info_start_after_end input w start end_ :
  date_fromisoformat E (dict_get input "start_date") = Date start →
  date_fromisoformat E (dict_get input "end_date") = Date end_ →
  start > end_ →
  create_info E input w =
  (Raise (HTTPException 400 (if present input then msg_order else msg_required)), w).
Proof.
  intros Hs He Hgt. destruct (present input) eqn:Hp.
  - rewrite (create_info_checks _ _ _ _ Hp Hs He).
    by rewrite bool_decide_eq_true_2.
  - by apply create_info_missing_field.
Qed.

(** C4: for an ingestion request whose dates parse with start <= end, the
    request fails with a 400 "bad request" error, the world unchanged, when
    either date is strictly before today or more than 5 days after today
    (the historical-data error when one is before today, the horizon error
    otherwise); when both dates lie between today and today + 5 neither
    check rejects it: the only 400 left is that of a missing field, and a
    request with all fields present goes on to the ingestion proper. *)
Theorem create_info_date_window input w start end_ :
  date_fromisoformat E (dict_get input "start_date") = Date start →
  date_fromisoformat E (dict_get input "end_date") = Date end_ →
  start ≤ end_ →
  (start < today E ∨ end_ < today E ∨ start > today E + 5 ∨ end_ > today E + 5 →
   ∃ detail,
     create_info E input w = (Raise (HTTPException 400 detail), w)
     ∧ (present input = true →
        detail = if bool_decide (start < today E ∨ end_ < today E)
                 then msg_past else msg_horizon))
  ∧ (today E ≤ start ≤ today E + 5 → today E ≤ end_ ≤ today E + 5 →
     (∀ detail w',
        create_info E input w = (Raise (HTTPException 400 detail), w') →
        detail = msg_required ∧ present input = false)
     ∧ (present input = true →
        create_info E input w =
        fetch_and_store E (dict_get input "city") (dict_get input "country")
          start end_ w)).
Proof.
  intros Hs He Hle. destruct (present input) eqn:Hp.
  - rewrite (create_info_checks _ _ _ _ Hp Hs He).
    rewrite (bool_decide_eq_false_2 (start > end_)) by lia.
    split.
    + intros Hout. destruct (decide (start < today E ∨ end_ < today E)) as [Hpast|Hpast].
      * exists msg_past. rewrite (bool_decide_eq_true_2 (_ ∨ _)) by done.
        split; [|done].
        destruct Hpast as [Hpast|Hpast].
        -- by rewrite (bool_decide_eq_true_2 _ Hpast).
        -- rewrite (bool_decide_eq_true_2 _ Hpast). by rewrite orb_true_r.
      * exists msg_horizon. rewrite (bool_decide_eq_false_2 (_ ∨ _)) by done.
        split; [|done].
        rewrite !(bool_decide_eq_false_2 (_ < today E)) by lia. cbn [orb].
        destruct (decide (start > today E + 5)).
        -- by rewrite (bool_decide_eq_true_2 (start > today E + 5)).
        -- rewrite (bool_decide_eq_true_2 (end_ > today E + 5)) by lia.
           by rewrite orb_true_r.
    + intros [? ?] [? ?]. rewrite !bool_decide_eq_false_2 by lia. cbn [orb].
      split; [|done]. intros detail w' Hrun.
      apply fetch_and_store_effect in Hrun as (_ & Hr & _).
      by specialize (Hr _ eq_refl).
  - rewrite (create_info_missing_field _ _ Hp). split.
    + intros _. by exists msg_required.
    + intros _ _. split; [|done]. by intros detail w' [= <- _].
Qed.

End Validation.

(** ** Ingestion: the returned sequence, idempotence, the fetch strategy *)

Section IngestionProperties.

Context (E : env).

Lemma provider_calls_crud (cs : list crud_call) : provider_calls (Crud <$> cs) = [].
Proof.
  unfold provider_calls. induction cs as [|c cs IH]; [done|].
  rewrite fmap_cons, filter_cons_False by (cbn; congruence). exact IH.
Qed.

Lemma found_rows loc rows dates infos :
  Forall2 (fun d i => find (same_loc_date (loc_id loc) d) rows = Some i) dates infos →
  info_date <$> infos = dates
  ∧ Forall (fun i => info_location_id i = loc_id loc ∧ i ∈ rows) infos.
Proof.
  induction 1 as [|d i dates infos Hf _ [IHd IHF]]; [by split|].
  apply find_Some_holds in Hf as [Hp Hin].
  apply bool_decide_eq_true in Hp as [Hl Hd].
  split; [by rewrite fmap_cons, Hd, IHd | by constructor].
Qed.

Lemma fetch_and_store_returns city country start end_ w :
  weather_answers E city country →
  forecast_answers E city country start end_ →
  ∃ infos w2, fetch_and_store E city country start end_ w = (Ok infos, w2).
Proof.
  intros Hw Hfc. rewrite fetch_and_store_run. cbv zeta.
  destruct (find _ _).
  - by eapply ingest_loop_returns.
  - destruct (Hw (trace w ++ [Crud (GetLocationByCity city country)])) as [data ->].
    by eapply ingest_loop_returns.
Qed.

Lemma fetch_and_store_result city country start end_ w infos w2 :
  fetch_and_store E city country start end_ w = (Ok infos, w2) →
  ∃ loc,
    find (same_city city country) (locations (db w2)) = Some loc
    ∧ Forall2 (fun d i =>
                 find (same_loc_date (loc_id loc) d) (weather_infos (db w2)) = Some i)
              (date_range start end_) infos.
Proof.
  intros Hrun. apply fetch_and_store_inv in Hrun
    as [(? & _)|(loc & w1 & t & Hloop & Hloc & _)]; [discriminate|].
  exists loc.
  destruct (ingest_loop_result _ _ _ _ _ _ _ _ _ _ Hloop) as (new & -> & HF).
  apply ingest_loop_effect in Hloop as (-> & _). done.
Qed.

Lemma fetch_and_store_again city country start end_ w infos w1 :
  fetch_and_store E city country start end_ w = (Ok infos, w1) →
  ∃ t, fetch_and_store E city country start end_ w1 =
       (Ok infos, {| db := db w1; trace := trace w1 ++ t |})
       ∧ provider_calls t = [].
Proof.
  intros Hrun. apply fetch_and_store_result in Hrun as (loc & Hloc & HF).
  exists (Crud <$> (GetLocationByCity city country
                    :: (GetInfoByLocDate (loc_id loc) <$> date_range start end_))).
  split; [|apply provider_calls_crud].
  rewrite fetch_and_store_run, Hloc. cbv zeta.
  rewrite (ingest_loop_cached E loc city country end_ infos) by exact HF.
  cbn [log db trace app]. rewrite <- app_assoc, fmap_cons, <- list_fmap_compose.
  reflexivity.
Qed.

Lemma answered_all_app h t1 t2 :
  answered_all E h (t1 ++ t2) = answered_all E h t1 && answered_all E (h ++ t1) t2.
Proof.
  revert h. induction t1 as [|e t1 IH]; intros h; cbn [answered_all app].
  - by rewrite app_nil_r.
  - rewrite IH, <- app_assoc, andb_assoc. reflexivity.
Qed.

Lemma answered_fetch_call h city country d :
  answered E h (fetch_call E city country d)
  = bool_decide (is_Some (fetch_response E h city country d)).
Proof. unfold fetch_call, fetch_response. by case_bool_decide. Qed.

(** The calls of a run of the loop were all answered exactly when the loop
    returned. *)
Lemma ingest_loop_answered loc city country end_ current acc w r w2 :
  ingest_loop E loc city country end_ current acc w = (r, w2) →
  ∃ t, trace w2 = trace w ++ t
       ∧ answered_all E (trace w) t = match r with Ok _ => true | Raise _ => false end.
Proof.
  revert current acc w r w2.
  apply (ingest_loop_ind E loc city country end_
           (fun current acc w r w2 =>
              ∃ t, trace w2 = trace w ++ t
                   ∧ answered_all E (trace w) t
                     = match r with Ok _ => true | Raise _ => false end)).
  - intros current acc w _. exists []. by rewrite app_nil_r.
  - intros current acc w e w1 Hle Hd.
    apply ingest_date_inv in Hd as [(i & _ & ? & _)|[(_ & data & _ & ? & _)|(_ & Hr & _ & _ & Ht)]];
      try discriminate.
    eexists. split; [exact Ht|].
    cbn [answered_all answered]. rewrite answered_fetch_call, Hr.
    rewrite bool_decide_eq_false_2 by (intros [? ?]; discriminate). reflexivity.
  - intros current acc w i w1 r w2 Hle Hd _ (t & Ht & Ha).
    apply ingest_date_inv in Hd as [(i' & _ & _ & _ & Ht1)|[(_ & data & Hr & _ & _ & Ht1)|(_ & _ & ? & _)]];
      try discriminate.
    + eexists. rewrite Ht, Ht1, <- app_assoc. split; [done|].
      rewrite answered_all_app, <- Ht1, Ha. reflexivity.
    + eexists. rewrite Ht, Ht1, <- app_assoc. split; [done|].
      rewrite answered_all_app, <- Ht1, Ha.
      cbn [answered_all answered]. rewrite answered_fetch_call, Hr.
      by rewrite bool_decide_eq_true_2 by by eexists.
Qed.

Lemma fetch_and_store_answered city country start end_ w r w2 :
  fetch_and_store E city country start end_ w = (r, w2) →
  ∃ t, trace w2 = trace w ++ t
       ∧ answered_all E (trace w) t = match r with Ok _ => true | Raise _ => false end.
Proof.
  rewrite fetch_and_store_run. cbv zeta.
  destruct (find _ _) as [l|].
  - intros Hloop. apply ingest_loop_answered in Hloop as (t & Ht & Ha).
    cbn [log db trace] in Ht, Ha.
    eexists. rewrite Ht, <- app_assoc. split; [done|].
    by rewrite answered_all_app, Ha.
  - destruct (get_weather_by_city E _ city country) as [data|] eqn:Hw.
    + intros Hloop. apply ingest_loop_answered in Hloop as (t & Ht & Ha).
      cbn [db trace] in Ht, Ha.
      eexists. rewrite Ht, <- app_assoc. split; [done|].
      rewrite answered_all_app, Ha. cbn [answered_all answered]. rewrite Hw.
      by rewrite bool_decide_eq_true_2 by by eexists.
    + intros [= <- <-]. eexists. split; [done|].
      cbn [answered_all answered]. rewrite Hw.
      rewrite bool_decide_eq_false_2 by (intros [? ?]; discriminate). reflexivity.
Qed.




(** C1: an ingestion request that passes validation returns exactly when
    the provider answers the calls the request makes.  When it answers them
    all, the request returns a sequence with exactly one WeatherInfo record
    per date of the inclusive range from start to end, in ascending date
    order: its length is (end - start) + 1, and 6 for the range from today
    to today + 5; the records are rows of the request's location in the
    database.  When a call is not answered, the failure propagates: the
    request raises the provider's error and returns no sequence. *)
Theorem create_info_returns_range input w start end_ :
  validated E input start end_ →
  ∃ t,
    trace (create_info E input w).2 = trace w ++ t
    ∧ (answered_all E (trace w) t = true →
       ∃ infos w',
         create_info E input w = (Ok infos, w')
         ∧ info_date <$> infos = date_range start end_
         ∧ length infos = S (Z.to_nat (end_ - start))
         ∧ (start = today E → end_ = today E + 5 → length infos = 6%nat)
         ∧ ∃ loc,
             find (same_city (dict_get input "city") (dict_get input "country"))
                  (locations (db w')) = Some loc
             ∧ Forall (fun i => info_location_id i = loc_id loc
                                ∧ i ∈ weather_infos (db w')) infos)
    ∧ (answered_all E (trace w) t = false →
       ∃ w', create_info E input w = (Raise CollaboratorError, w')).
Proof.
  intros Hv. rewrite (create_info_validated _ _ _ _ _ Hv).
  pose proof (start_le_end _ _ _ _ Hv) as Hle.
  destruct (fetch_and_store E _ _ start end_ w) as [r w'] eqn:Hrun. cbn [snd].
  destruct (fetch_and_store_answered _ _ _ _ _ _ _ Hrun) as (t & Ht & Ha).
  exists t. split; [exact Ht|]. destruct r as [infos|e].
  - split; [|intros Hno; rewrite Ha in Hno; discriminate].
    intros _. exists infos, w'. split; [reflexivity|].
    apply fetch_and_store_result in Hrun as (loc & Hloc & HF).
    apply found_rows in HF as [Hdates Hrows].
    assert (Hlen : length infos = S (Z.to_nat (end_ - start))).
    { rewrite <- (length_fmap info_date), Hdates. by apply date_range_length. }
    split; [done|]. split; [done|]. split.
    + intros -> ->. rewrite Hlen. f_equal.
      replace (today E + 5 - today E) with 5 by lia. reflexivity.
    + by exists loc.
  - split; [intros Hyes; rewrite Ha in Hyes; discriminate|].
    intros _. exists w'.
    apply fetch_and_store_effect in Hrun as (_ & Hr & _).
    by rewrite (Hr e eq_refl).
Qed.

(** C2: ingestion is idempotent per (location, date).  A date whose record
    exists is served from the database: the record is returned, no provider
    is called and nothing is stored.  Whatever the outcome of a request, it
    adds at most one row per (location, date) and none where a row exists.
    And a request that returned, run again, returns the same records, calls
    no provider and leaves the database as it is. *)
Theorem ingestion_idempotent :
  (∀ loc city country d w i,
     find (same_loc_date (loc_id loc) d) (weather_infos (db w)) = Some i →
     ingest_date E loc city country d w =
     (Ok i, {| db := db w; trace := trace w ++ [Crud (GetInfoByLocDate (loc_id loc) d)] |}))
  ∧ (∀ input w r w1,
       create_info E input w = (r, w1) →
       ∀ l d, (rows_of l d (db w) ≤ rows_of l d (db w1)
               ∧ rows_of l d (db w1) ≤ Nat.max 1 (rows_of l d (db w)))%nat)
  ∧ (∀ input w r w1 start end_ loc d i,
       validated E input start end_ →
       find (same_city (dict_get input "city") (dict_get input "country"))
            (locations (db w)) = Some loc →
       find (same_loc_date (loc_id loc) d) (weather_infos (db w)) = Some i →
       create_info E input w = (r, w1) →
       (∃ t, trace w1 = trace w ++ t
             ∧ fetch_call E (dict_get input "city") (dict_get input "country") d ∉ t)
       ∧ rows_of (loc_id loc) d (db w1) = rows_of (loc_id loc) d (db w)
       ∧ (∀ infos, r = Ok infos → start ≤ d ≤ end_ →
                   infos !! Z.to_nat (d - start) = Some i))
  ∧ (∀ input w infos w1,
       create_info E input w = (Ok infos, w1) →
       ∃ t w2,
         create_info E input w1 = (Ok infos, w2)
         ∧ db w2 = db w1 ∧ trace w2 = trace w1 ++ t ∧ provider_calls t = []
         ∧ ((∀ l d, rows_of l d (db w) ≤ 1)%nat → (∀ l d, rows_of l d (db w2) ≤ 1)%nat)).
Proof.
  split; [|split; [|split]].
  - intros loc city country d w i Hf. by rewrite ingest_date_run, Hf.
  - intros input w r w1 Hrun l d.
    destruct (create_info_cases E input w) as [(e & He & _)|(start & end_ & _ & Heq)].
    + rewrite He in Hrun. injection Hrun as _ <-. lia.
    + rewrite Heq in Hrun. apply fetch_and_store_effect in Hrun as (_ & _ & Hrows).
      destruct (Hrows l d) as [->|[-> ->]]; lia.
  - intros input w r w1 start end_ loc d i Hv Hloc Hf Hrun.
    rewrite (create_info_validated _ _ _ _ _ Hv) in Hrun.
    rewrite (fetch_and_store_known _ _ _ _ _ _ _ Hloc) in Hrun.
    pose proof (ingest_loop_rows _ _ _ _ _ _ _ _ _ _ Hrun (loc_id loc) d) as Hrows.
    pose proof (rows_of_find_Some _ _ _ _ Hf) as Hone.
    split; [|split].
    + destruct (ingest_loop_no_refetch _ _ _ _ _ _ _ _ _ _ Hrun d i Hf) as (t & Ht & Hnot).
      exists (Crud (GetLocationByCity (dict_get input "city") (dict_get input "country")) :: t).
      cbn [log trace] in Ht. rewrite Ht, <- app_assoc. split; [done|].
      rewrite not_elem_of_cons. split; [|done].
      apply fetch_call_not_crud.
    + cbn [log db] in Hrows. destruct Hrows as [->|(? & _)]; [done | lia].
    + intros infos -> Hd.
      destruct (ingest_loop_result _ _ _ _ _ _ _ _ _ _ Hrun) as (new & -> & HF).
      apply ingest_loop_effect in Hrun as (_ & (added & Ha & _) & _).
      cbn [log db] in Ha.
      assert (Hk : date_range start end_ !! Z.to_nat (d - start) = Some d).
      { unfold date_range. apply lookup_seqZ. lia. }
      destruct (Forall2_lookup_l _ _ _ _ _ HF Hk) as (i' & Hi' & Hfi').
      rewrite Ha, (find_app_Some _ _ _ _ Hf) in Hfi'. injection Hfi' as <-.
      exact Hi'.
  - intros input w infos w1 Hrun.
    destruct (create_info_cases E input w) as [(e & He & _)|(start & end_ & Hv & Heq)].
    + rewrite He in Hrun. discriminate.
    + rewrite Heq in Hrun.
      pose proof (fetch_and_store_effect _ _ _ _ _ _ _ _ Hrun) as (_ & _ & Hrows).
      apply fetch_and_store_again in Hrun as (t & Hagain & Ht).
      exists t, {| db := db w1; trace := trace w1 ++ t |}. cbn [db trace].
      split; [|repeat split; try done;
               intros Hone l d; specialize (Hone l d);
               destruct (Hrows l d) as [->|[_ ->]]; lia].
      destruct (create_info_cases E input w1) as [(e & He & Hkind)|(s' & e' & Hv' & Heq')].
      * exfalso.
        assert (Hp : present input = true).
        { unfold present. by rewrite (city_present _ _ _ _ Hv),
            (start_present _ _ _ _ Hv), (end_present _ _ _ _ Hv). }
        pose proof (start_le_end _ _ _ _ Hv).
        pose proof (start_in_window _ _ _ _ Hv) as [? ?].
        pose proof (end_in_window _ _ _ _ Hv) as [? ?].
        rewrite (create_info_checks _ _ _ _ _ Hp (start_parses _ _ _ _ Hv)
                   (end_parses _ _ _ _ Hv)) in He.
        rewrite !bool_decide_eq_false_2 in He by lia. cbn [orb] in He.
        rewrite Hagain in He. discriminate.
      * rewrite Heq'.
        pose proof (start_parses _ _ _ _ Hv) as H1.
        pose proof (end_parses _ _ _ _ Hv) as H2.
        rewrite (start_parses _ _ _ _ Hv') in H1.
        rewrite (end_parses _ _ _ _ Hv') in H2.
        injection H1 as ->. injection H2 as ->. exact Hagain.
Qed.

Lemma loop_event_ingestion city country start end_ e :
  today E ≤ start → end_ ≤ today E + 5 →
  loop_event E city country start end_ e → ingestion_event E city country e.
Proof.
  intros Hs He. destruct e as [c k|d c k|q n|c]; cbn; try done.
  - by intros (? & ? & _).
  - intros (? & ? & ? & ?). repeat split; try done; lia.
Qed.


(** C9: the ingestion never fills the raw-data field.  Whatever the outcome
    of a request, the rows it adds to the database all have their raw data
    unset, and every record it returns either was stored before the request
    or has its raw data unset. *)
Theorem ingestion_leaves_raw_data_unset input w :
  let w' := (create_info E input w).2 in
  (∃ created,
     weather_infos (db w') = weather_infos (db w) ++ created
     ∧ Forall (fun i => info_raw_data i = VNone) created)
  ∧ (∀ infos,
       (create_info E input w).1 = Ok infos →
       Forall (fun i => i ∈ weather_infos (db w) ∨ info_raw_data i = VNone) infos).
Proof.
  cbv zeta.
  destruct (create_info E input w) as [r w'] eqn:Hrun. cbn [fst snd].
  destruct (create_info_cases E input w) as [(e & He & _)|(start & end_ & Hv & Heq)].
  { rewrite He in Hrun. injection Hrun as <- <-. split; [|discriminate].
    exists []. by rewrite app_nil_r. }
  rewrite Heq in Hrun.
  destruct (fetch_and_store_effect _ _ _ _ _ _ _ _ Hrun) as ((created & Ha & HF) & _).
  assert (Hraw : Forall (fun i => info_raw_data i = VNone) created).
  { eapply Forall_impl; [exact HF|]. by intros i [? _]. }
  split; [by exists created|].
  intros infos ->.
  apply fetch_and_store_result in Hrun as (loc & _ & HF2).
  apply found_rows in HF2 as [_ Hin].
  eapply Forall_impl; [exact Hin|]. intros i [_ Hi]. cbn beta in Hi.
  rewrite Ha in Hi. apply elem_of_app in Hi as [?|Hi]; [by left|right].
  rewrite Forall_forall in Hraw. by apply Hraw.
Qed.

End IngestionProperties.

(** ** Creating a location *)

Section Locations.

Context (E : env).

Lemma find_same_city_Some city country b l :
  find (same_city city country) (locations b) = Some l → stored city country b.
Proof.
  intros H. apply find_Some_holds in H as [Hp Hin].
  apply bool_decide_eq_true in Hp as [? ?]. by exists l.
Qed.

Lemma find_same_city_None city country b :
  find (same_city city country) (locations b) = None ↔ ¬ stored city country b.
Proof.
  split.
  - intros H (l & Hin & Hc & Hk).
    apply list_elem_of_In in Hin.
    pose proof (find_none _ _ H l Hin) as Hp.
    apply bool_decide_eq_false in Hp. by apply Hp.
  - intros Hn. destruct (find _ _) as [l|] eqn:Hf; [|done].
    destruct Hn. by eapply find_same_city_Some.
Qed.

(** The run of [create_location], branch by branch. *)
Lemma create_location_run location w :
  let city := dict_get location "city" in
  let country := dict_get location "country" in
  let look := Crud (GetLocationByCity city country) in
  let finish lat lon w1 :=
    match find (same_city city country) (locations (db w)) with
    | Some _ => (Raise (HTTPException 400 msg_exists), log look w1)
    | None =>
        (Ok (new_location (db w) city country lat lon),
         {| db := set_locations
                    (locations (db w) ++ [new_location (db w) city country lat lon]) (db w);
            trace := trace w1 ++ [look; Crud (CreateLocation city country lat lon)] |})
    end in
  create_location E location w =
  if truthy city then
    if coordinates_given location
    then finish (dict_get location "lat") (dict_get location "lon") w
    else
      match get_weather_by_city E (trace w) city country with
      | Some data =>
          finish (coord_lat data) (coord_lon data) (log (WeatherByCity city country) w)
      | None => (Raise CollaboratorError, log (WeatherByCity city country) w)
      end
  else (Raise (HTTPException 400 msg_city_required), w).
Proof.
  cbv zeta. unfold create_location, coordinates_given.
  destruct (truthy (dict_get location "city")); cbn [negb]; [|reflexivity].
  rewrite <- negb_andb.
  destruct (truthy (dict_get location "lat") && truthy (dict_get location "lon"));
    cbn [negb].
  - cbv [mbind M_bind mret M_ret crud.get_location_by_city crud.create_location crud.run
         log new_location raise].
    cbn [db trace].
    destruct (find _ _); [reflexivity|]. cbn [db trace].
    rewrite <- !app_assoc; reflexivity.
  - cbv [mbind M_bind mret M_ret crud.get_location_by_city crud.create_location crud.run
         weather_by_city log new_location raise].
    destruct (get_weather_by_city _ _ _ _); [|reflexivity]. cbn [db trace].
    destruct (find _ _); [reflexivity|]. cbn [db trace].
    rewrite <- !app_assoc; reflexivity.
Qed.


Lemma create_location_stored_at location w :
  truthy (dict_get location "city") = true →
  coordinates_resolved E location w →
  stored (dict_get location "city") (dict_get location "country") (db w) →
  ∃ t, create_location E location w =
       (Raise (HTTPException 400 msg_exists), {| db := db w; trace := trace w ++ t |}).
Proof.
  intros Hc Hcoords Hst. rewrite create_location_run. cbv zeta. rewrite Hc.
  destruct (find _ _) as [l|] eqn:Hf.
  2:{ by apply find_same_city_None in Hf. }
  unfold coordinates_resolved in Hcoords.
  destruct (coordinates_given location).
  - by eexists.
  - destruct Hcoords as [?|[data ->]]; [done|].
    exists [WeatherByCity (dict_get location "city") (dict_get location "country");
            Crud (GetLocationByCity (dict_get location "city")
                    (dict_get location "country"))].
    unfold log. cbn [db trace]. by rewrite <- app_assoc.
Qed.

Lemma create_location_lookup_failed location w :
  truthy (dict_get location "city") = true →
  coordinates_given location = false →
  get_weather_by_city E (trace w) (dict_get location "city")
    (dict_get location "country") = None →
  create_location E location w =
  (Raise CollaboratorError,
   {| db := db w;
      trace := trace w ++ [WeatherByCity (dict_get location "city")
                             (dict_get location "country")] |}).
Proof.
  intros Hc Hg Hnone. rewrite create_location_run. cbv zeta.
  by rewrite Hc, Hg, Hnone.
Qed.

(** C7: a create-location request with a non-empty city.  When its
    coordinates are given, or the provider answers the lookup the request
    makes: if a location with the same (city, country) pair is stored, the
    request fails with the 400 conflict error and the database is unchanged;
    if none is stored, the request succeeds: the new record carries the city
    and the country, is appended to the stored locations and is returned,
    and the same request made again at once fails with the conflict error,
    provided its own lookup is answered.  When a coordinate is missing and
    the provider does not answer the lookup, the failure propagates: the
    request neither succeeds nor reports a conflict, whether or not the pair
    is stored, and the database is unchanged; this holds for the repeated
    request as well. *)
Theorem create_location_conflict location w :
  let city := dict_get location "city" in
  let country := dict_get location "country" in
  let lookup_fails w0 :=
    coordinates_given location = false
    ∧ get_weather_by_city E (trace w0) city country = None in
  let fails w0 :=
    create_location E location w0 =
    (Raise CollaboratorError,
     {| db := db w0; trace := trace w0 ++ [WeatherByCity city country] |}) in
  truthy city = true →
  (coordinates_resolved E location w →
   (stored city country (db w) →
    ∃ t, create_location E location w =
         (Raise (HTTPException 400 msg_exists), {| db := db w; trace := trace w ++ t |}))
   ∧ (¬ stored city country (db w) →
      ∃ l w',
        create_location E location w = (Ok l, w')
        ∧ loc_city l = city ∧ loc_country l = country
        ∧ db w' = set_locations (locations (db w) ++ [l]) (db w)
        ∧ (coordinates_resolved E location w' →
           ∃ t, create_location E location w' =
                (Raise (HTTPException 400 msg_exists),
                 {| db := db w'; trace := trace w' ++ t |}))
        ∧ (lookup_fails w' → fails w')))
  ∧ (lookup_fails w → fails w)
  ∧ (coordinates_resolved E location w ∨ lookup_fails w).
Proof.
  intros city country lookup_fails fails Hc. split; [|split].
  - intros Hcoords. split; [by apply create_location_stored_at|].
    intros Hnew. apply find_same_city_None in Hnew.
    assert (Hrun : ∃ l w', create_location E location w = (Ok l, w')
                           ∧ loc_city l = city ∧ loc_country l = country
                           ∧ db w' = set_locations (locations (db w) ++ [l]) (db w)).
    { rewrite create_location_run. cbv zeta. fold city country. rewrite Hc, Hnew.
      unfold coordinates_resolved in Hcoords. fold city country in Hcoords.
      destruct (coordinates_given location).
      - by eexists _, _.
      - destruct Hcoords as [?|[data ->]]; [done|]. by eexists _, _. }
    destruct Hrun as (l & w' & Hrun & Hcity & Hcountry & Hdb).
    exists l, w'. split; [exact Hrun|]. split; [exact Hcity|].
    split; [exact Hcountry|]. split; [exact Hdb|]. split.
    + intros Hagain. apply create_location_stored_at; [exact Hc | exact Hagain |].
      exists l. rewrite Hdb. cbn [set_locations locations].
      split; [|done]. apply elem_of_app. right. by apply list_elem_of_singleton.
    + intros [Hg Hnone]. by apply create_location_lookup_failed.
  - intros [Hg Hnone]. by apply create_location_lookup_failed.
  - unfold coordinates_resolved, lookup_fails. fold city country.
    destruct (coordinates_given location); [by left; left|].
    destruct (get_weather_by_city E (trace w) city country) as [data|].
    + left. right. by eexists.
    + by right.
Qed.

Lemma provider_calls_app t t' :
  provider_calls (t ++ t') = provider_calls t ++ provider_calls t'.
Proof. apply filter_app. Qed.

(** C10: in create-location, once the city check has passed, the
    coordinates of the request are used only when both are truthy.  A
    coordinate that is absent, null or zero is falsy.  The weather provider
    is called, once and for (city, country), exactly when a coordinate is
    falsy; the coordinates of the location the request creates are then both
    taken from the response, whatever the request gave, and are those of the
    request otherwise. *)
Theorem create_location_coordinates location w :
  let city := dict_get location "city" in
  let country := dict_get location "country" in
  let lat := dict_get location "lat" in
  let lon := dict_get location "lon" in
  truthy city = true →
  (∀ k, k = "lat" ∨ k = "lon" →
        location !! k = None ∨ location !! k = Some VNone
        ∨ location !! k = Some (VInt 0) ∨ location !! k = Some (VFloat 0%Qc) →
        coordinates_given location = false)
  ∧ ∀ r w',
      create_location E location w = (r, w') →
      provider_calls (trace w') =
      provider_calls (trace w)
      ++ (if coordinates_given location then [] else [WeatherByCity city country])
      ∧ ∀ l, r = Ok l →
             if coordinates_given location
             then loc_lat l = lat ∧ loc_lon l = lon
             else ∃ data,
                 get_weather_by_city E (trace w) city country = Some data
                 ∧ loc_lat l = coord_lat data ∧ loc_lon l = coord_lon data.
Proof.
  intros city country lat lon Hc. split.
  - intros k Hk Hv. unfold coordinates_given, dict_get.
    destruct Hk as [-> | ->]; destruct Hv as [-> | [-> | [-> | ->]]]; cbn;
      rewrite ?andb_false_r; reflexivity.
  - intros r w'. rewrite create_location_run. cbv zeta. fold city country lat lon.
    rewrite Hc.
    destruct (coordinates_given location).
    + destruct (find _ _); intros [= <- <-]; cbn [log db trace];
        rewrite provider_calls_app; (split; [reflexivity|]);
        [discriminate | by intros l [= <-]].
    + destruct (get_weather_by_city E (trace w) city country) as [data|].
      * destruct (find _ _); intros [= <- <-]; cbn [log db trace];
          rewrite <- ?app_assoc, provider_calls_app; (split; [reflexivity|]);
          [discriminate|].
        intros l [= <-]. by exists data.
      * intros [= <- <-]. cbn [log db trace]. rewrite provider_calls_app.
        split; [reflexivity | discriminate].
Qed.

End Locations.

(** ** Rejected requests *)

Section Rejection.

Context (E : env).

Lemma fmap_raise {A B : Type} (f : A → B) (m : M A) w e w' :
  (f <$> m) w = (Raise e, w') → m w = (Raise e, w').
Proof.
  cbv [fmap M_fmap]. destruct (m w) as [[a|e0] w0]; [discriminate|].
  by intros [= -> ->].
Qed.

Lemma export_rows_raise infos w e w' :
  export_rows E infos w = (Raise e, w') → e = AttributeError.
Proof.
  revert w. induction infos as [|i infos IH]; intros w; cbn [export_rows].
  - discriminate.
  - rewrite bind_run. unfold location_of at 1.
    destruct (find _ _); [|by intros [= <- _]].
    rewrite bind_run.
    destruct (export_rows E infos w) as [[rows|e0] wr] eqn:Hrest.
    + discriminate.
    + intros [= <- <-]. by eapply IH.
Qed.

(** A call to the data-access layer returns. *)
Lemma run_ok {A : Type} c (f : database → A * database) w :
  ∃ a d, crud.run c f w = (Ok a, {| db := d; trace := trace w ++ [Crud c] |}).
Proof. unfold crud.run. destruct (f (db w)) as [a d]. by exists a, d. Qed.

Ltac after_crud H :=
  rewrite bind_run in H;
  match type of H with
  | context [crud.run ?c ?f ?w] =>
      let a := fresh "a" in
      let d := fresh "d" in
      let Hq := fresh "Hq" in
      destruct (run_ok c f w) as (a & d & Hq); rewrite Hq in H; clear Hq
  end.

(** A request [create_location] rejects with a 400 error. *)
Lemma create_location_rejected location w detail w' :
  create_location E location w = (Raise (HTTPException 400 detail), w') →
  detail = msg_city_required ∧ w' = w
  ∨ detail = msg_exists ∧ db w' = db w
    ∧ trace w' = trace w
        ++ (if coordinates_given location
            then []
            else [WeatherByCity (dict_get location "city") (dict_get location "country")])
        ++ [Crud (GetLocationByCity (dict_get location "city")
                    (dict_get location "country"))].
Proof.
  rewrite create_location_run. cbv zeta.
  destruct (truthy (dict_get location "city")); [|intros [= <- <-]; by left].
  destruct (coordinates_given location).
  - destruct (find _ _); intros [= <- <-]. right. done.
  - destruct (get_weather_by_city _ _ _ _); [|discriminate].
    destruct (find _ _); intros [= <- <-]. right.
    cbn [log db trace]. by rewrite <- app_assoc.
Qed.

(** C6: a request rejected with a 400 error (validation or conflict) leaves
    the database unchanged.  Unless the error is the conflict of
    create-location, no collaborator at all was called.  The conflict check
    of create-location comes after the coordinate lookup: a request it
    rejects has read the database for the check and, before that, called the
    weather provider when a coordinate was falsy.  An ingestion that fails
    after validation fails on a provider call and keeps the rows it stored
    before: such a failure on a later date leaves the records of the earlier
    dates in the database, as the run on [Demo.env_flaky] shows. *)
Theorem rejected_requests_store_nothing :
  (∀ r w detail w',
     handle E r w = (Raise (HTTPException 400 detail), w') →
     db w' = db w
     ∧ (detail ≠ msg_exists → w' = w)
     ∧ (detail = msg_exists →
        ∃ location,
          r = PostLocations location
          ∧ trace w' = trace w
              ++ (if coordinates_given location
                  then []
                  else [WeatherByCity (dict_get location "city")
                          (dict_get location "country")])
              ++ [Crud (GetLocationByCity (dict_get location "city")
                          (dict_get location "country"))]))
  ∧ (∀ input w e w',
       create_info E input w = (Raise e, w') →
       (e ≠ CollaboratorError → w' = w)
       ∧ ∃ created, weather_infos (db w') = weather_infos (db w) ++ created)
  ∧ (let run := create_info Demo.env_flaky
                  (Demo.london_request "2026-11-04" "2026-11-09") Demo.start_world in
     run.1 = Raise CollaboratorError
     ∧ info_date <$> weather_infos (db run.2)
       = [Calendar.toordinal 2026 11 4; Calendar.toordinal 2026 11 5]).
Proof.
  split; [|split].
  - intros r w detail w' Hrun.
    assert (Hcases : w' = w ∧ detail ≠ msg_exists
                     ∨ ∃ location, r = PostLocations location
                         ∧ create_location E location w
                           = (Raise (HTTPException 400 detail), w')).
    { destruct r; cbn [handle] in Hrun; apply fmap_raise in Hrun.
      - right. by eexists.
      - unfold list_locations, crud.list_locations in Hrun.
        destruct (run_ok (ListLocations skip limit)
                    (fun d => (page skip limit (locations d), d)) w) as (a & d & Hq).
        rewrite Hq in Hrun. discriminate.
      - unfold delete_location, crud.delete_location in Hrun. after_crud Hrun.
        by destruct a.
      - left. destruct (create_info_cases E input w)
          as [(e & He & Hkind)|(start & end_ & _ & Heq)].
        + rewrite He in Hrun. injection Hrun as -> ->. split; [done|].
          destruct Hkind as [?|(d & [= <-] & Hd)]; [done|].
          rewrite !elem_of_cons in Hd.
          destruct Hd as [->|[->|[->|[->|[->|Hd]]]]]; try done.
          by apply elem_of_nil in Hd.
        + rewrite Heq in Hrun. apply fetch_and_store_effect in Hrun as (_ & Hr & _).
          by specialize (Hr _ eq_refl).
      - unfold list_infos, crud.list_infos in Hrun.
        destruct (run_ok (ListInfos skip limit)
                    (fun d => (page skip limit (weather_infos d), d)) w) as (a & d & Hq).
        rewrite Hq in Hrun. discriminate.
      - unfold get_info, crud.get_info in Hrun. after_crud Hrun. by destruct a.
      - unfold update_info, crud.update_info in Hrun. after_crud Hrun. by destruct a.
      - unfold delete_weather_info, crud.delete_info in Hrun. after_crud Hrun.
        by destruct a.
      - left. unfold get_info_by_loc_date in Hrun.
        destruct (fromisoformat E look_up_date).
        + unfold crud.get_info_by_loc_date in Hrun. after_crud Hrun. by destruct a.
        + by injection Hrun as <- <-.
      - left. unfold get_infos_by_loc_date_range in Hrun.
        destruct (fromisoformat E start_date); [|by injection Hrun as <- <-].
        destruct (fromisoformat E end_date); [|by injection Hrun as <- <-].
        unfold crud.get_infos_by_loc_date_range in Hrun. after_crud Hrun.
        by destruct a.
      - unfold export_json, crud.list_infos in Hrun. after_crud Hrun.
        by apply export_rows_raise in Hrun.
      - unfold get_location_videos, crud.get_location in Hrun. after_crud Hrun.
        destruct a as [l|]; [|discriminate].
        rewrite bind_run in Hrun. unfold youtube_search in Hrun.
        by destruct (search_youtube_videos _ _ _ _). }
    destruct Hcases as [[-> Hne]|(location & -> & Hloc)]; [done|].
    apply create_location_rejected in Hloc as [[-> ->]|(-> & Hdb & Ht)].
    + split; [done|]. split; [done|]. discriminate.
    + split; [done|]. split; [done|]. intros _. by exists location.
  - intros input w e w' Hrun.
    destruct (create_info_cases E input w) as [(e' & He & _)|(start & end_ & _ & Heq)].
    + rewrite He in Hrun. injection Hrun as -> ->. split; [done|].
      exists []. by rewrite app_nil_r.
    + rewrite Heq in Hrun.
      apply fetch_and_store_effect in Hrun as ((created & Hc & _) & Hr & _).
      split; [|by exists created]. intros Hne. by destruct Hne, (Hr e).
  - vm_compute. done.
Qed.

End Rejection.

(** ** Partial update of a WeatherInfo *)

Section Update.

Lemma find_update_first {A : Type} (p : A → bool) (f : A → A) (l : list A) (x : A) :
  find p l = Some x → p (f x) = true → find p (update_first p f l) = Some (f x).
Proof.
  intros Hf Hp. induction l as [|a l IH]; cbn [find update_first] in *; [discriminate|].
  destruct (p a) eqn:Ha.
  - injection Hf as ->. cbn [find]. by rewrite Hp.
  - cbn [find]. rewrite Ha. auto.
Qed.

Lemma update_first_length {A : Type} (p : A → bool) (f : A → A) (l : list A) :
  length (update_first p f l) = length l.
Proof.
  induction l as [|a l IH]; cbn [update_first]; [done|].
  destruct (p a); cbn; congruence.
Qed.

Lemma update_first_other {A : Type} (p : A → bool) (f : A → A) (l : list A) k (x : A) :
  l !! k = Some x → p x = false → update_first p f l !! k = Some x.
Proof.
  revert k. induction l as [|a l IH]; intros k; cbn [update_first]; [done|].
  intros Hk Hp. destruct k as [|k]; cbn in Hk.
  - injection Hk as ->. by rewrite Hp.
  - destruct (p a); cbn; auto.
Qed.

(** C8: a partial update of an existing WeatherInfo succeeds and returns the
    updated record, which replaces the old one in the database.  Each of
    temperature, weather description and raw data takes the value the
    payload names for it and keeps its previous value when the payload does
    not name it; identifier, location and date are kept, as are the
    locations and every other record.  When the identifier does not
    resolve, the update fails with the 404 "not found" error and the
    database is unchanged. *)
Theorem update_info_frame info_id_ updates w :
  let by_id := fun i => bool_decide (info_id i = info_id_) in
  (∀ i,
     find by_id (weather_infos (db w)) = Some i →
     ∃ i' w',
       update_info info_id_ updates w = (Ok i', w')
       ∧ find by_id (weather_infos (db w')) = Some i'
       ∧ info_id i' = info_id i
       ∧ info_location_id i' = info_location_id i
       ∧ info_date i' = info_date i
       ∧ info_temperature i' = default (info_temperature i) (updates !! "temperature")
       ∧ info_weather_description i'
         = default (info_weather_description i) (updates !! "weather_description")
       ∧ info_raw_data i' = default (info_raw_data i) (updates !! "raw_data")
       ∧ (updates !! "weather_description" = None →
          info_weather_description i' = info_weather_description i)
       ∧ locations (db w') = locations (db w)
       ∧ length (weather_infos (db w')) = length (weather_infos (db w))
       ∧ ∀ k j, weather_infos (db w) !! k = Some j → info_id j ≠ info_id_ →
                weather_infos (db w') !! k = Some j)
  ∧ (find by_id (weather_infos (db w)) = None →
     update_info info_id_ updates w =
     (Raise (HTTPException 404 "Weather info not found"),
      {| db := db w; trace := trace w ++ [Crud (UpdateInfo info_id_ updates)] |})).
Proof.
  intros by_id. split.
  - intros i Hf.
    exists (apply_updates updates i),
      {| db := set_infos (update_first by_id (apply_updates updates)
                            (weather_infos (db w))) (db w);
         trace := trace w ++ [Crud (UpdateInfo info_id_ updates)] |}.
    split; [|split].
    + unfold update_info, crud.update_info, crud.run. rewrite bind_run.
      fold by_id. by rewrite Hf.
    + cbn [db set_infos weather_infos]. apply find_update_first; [done|].
      apply find_Some_holds in Hf as [Hp _]. exact Hp.
    + cbn [apply_updates info_id info_location_id info_date info_temperature
             info_weather_description info_raw_data db set_infos weather_infos locations].
      repeat split; try done.
      * by intros ->.
      * apply update_first_length.
      * intros k j Hk Hne. apply update_first_other; [done|].
        by apply bool_decide_eq_false.
  - intros Hf. unfold update_info, crud.update_info, crud.run. rewrite bind_run.
    fold by_id. by rewrite Hf.
Qed.

End Update.

(** ** The properties on actual requests *)

Section Runs.

Import Demo.

(** Six days from today on, on an empty database: six records, the first
    from the current weather, the other five from forecasts. *)
Example ingest_six_days :
  let run := create_info env_up (london_request "2026-11-04" "2026-11-09") start_world in
  (∃ infos, run.1 = Ok infos
            ∧ info_date <$> infos = [nov 4; nov 5; nov 6; nov 7; nov 8; nov 9])
  ∧ provider_calls (trace run.2)
    = WeatherByCity (VStr "London") (VStr "GB")
      :: WeatherByCity (VStr "London") (VStr "GB")
      :: ((fun d => ForecastByDateAndCity d (VStr "London") (VStr "GB"))
            <$> [nov 5; nov 6; nov 7; nov 8; nov 9]).
Proof. split; [eexists; split|]; vm_compute; reflexivity. Qed.

Lemma london_request_validated (E : env) (a b : string) (start end_ : date) :
  fromisoformat E a = Some start → fromisoformat E b = Some end_ →
  a ≠ "" → b ≠ "" →
  start ≤ end_ → today E ≤ start → end_ ≤ today E + 5 →
  validated E (london_request a b) start end_.
Proof.
  intros Ha Hb Hna Hnb Hle Hs He.
  assert (Hsd : dict_get (london_request a b) "start_date" = VStr a) by reflexivity.
  assert (Hed : dict_get (london_request a b) "end_date" = VStr b) by reflexivity.
  constructor; rewrite ?Hsd, ?Hed; cbn [truthy date_fromisoformat];
    rewrite ?Ha, ?Hb; try done; try lia.
  - by destruct a.
  - by destruct b.
Qed.

(** The provider of [env_up] answers every call. *)
Lemma env_up_answers h t : answered_all env_up h t = true.
Proof.
  revert h. induction t as [|e t IH]; intros h; [reflexivity|].
  cbn [answered_all]. rewrite IH, andb_true_r. destruct e; reflexivity.
Qed.

(** The request of [ingest_six_days] passes validation and returns six
    records. *)
Lemma create_info_returns_range_witness :
  validated env_up (london_request "2026-11-04" "2026-11-09") (nov 4) (nov 9)
  ∧ ∃ infos w',
      create_info env_up (london_request "2026-11-04" "2026-11-09") start_world
      = (Ok infos, w')
      ∧ length infos = 6%nat.
Proof.
  assert (Hv : validated env_up (london_request "2026-11-04" "2026-11-09") (nov 4) (nov 9)).
  { apply london_request_validated; vm_compute; done. }
  split; [exact Hv|].
  destruct (create_info_returns_range env_up _ start_world _ _ Hv)
    as (t & _ & Hok & _).
  destruct (Hok (env_up_answers _ _)) as (infos & w' & Hrun & _ & _ & H6 & _).
  exists infos, w'. split; [exact Hrun|]. apply H6; reflexivity.
Defined.

(** With the weather provider down, a request for today that passes
    validation does not return: the coordinate lookup for the new location
    fails and the failure propagates. *)
Lemma create_info_provider_down :
  validated env_down (london_request "2026-11-04" "2026-11-04") (nov 4) (nov 4)
  ∧ (create_info env_down (london_request "2026-11-04" "2026-11-04") start_world).1
    = Raise CollaboratorError
  ∧ ¬ ∃ infos w',
        create_info env_down (london_request "2026-11-04" "2026-11-04") start_world
        = (Ok infos, w').
Proof.
  split; [|split].
  - apply london_request_validated; vm_compute; done.
  - vm_compute. reflexivity.
  - intros (infos & w' & Hrun). vm_compute in Hrun. discriminate.
Qed.

(** Running [ingest_six_days] a second time: the same six records, no
    provider call, the same database. *)
Lemma ingestion_idempotent_witness :
  ∃ infos w1,
    create_info env_up (london_request "2026-11-04" "2026-11-09") start_world
    = (Ok infos, w1)
    ∧ ∃ t w2,
        create_info env_up (london_request "2026-11-04" "2026-11-09") w1 = (Ok infos, w2)
        ∧ db w2 = db w1 ∧ trace w2 = trace w1 ++ t ∧ provider_calls t = []
        ∧ (∀ l d, rows_of l d (db w2) ≤ 1)%nat.
Proof.
  destruct (create_info env_up (london_request "2026-11-04" "2026-11-09") start_world)
    as [[infos|e] w1] eqn:Hrun; [|vm_compute in Hrun; discriminate].
  exists infos, w1. split; [reflexivity|].
  destruct (proj2 (proj2 (proj2 (ingestion_idempotent env_up))) _ _ _ _ Hrun)
    as (t & w2 & Hagain & Hdb & Ht & Hp & Hone).
  exists t, w2.
  split; [exact Hagain|]. split; [exact Hdb|]. split; [exact Ht|]. split; [exact Hp|].
  apply Hone. intros l d. cbn. lia.
Defined.


(** A range that starts yesterday is refused as historical. *)
Lemma create_info_date_window_witness :
  (nov 3 ≤ nov 5 ∧ nov 3 < today env_up)
  ∧ create_info env_up (london_request "2026-11-03" "2026-11-05") start_world
    = (Raise (HTTPException 400 msg_past), start_world).
Proof.
  assert (Hle : nov 3 ≤ nov 5) by (vm_compute; done).
  assert (Hlt : nov 3 < today env_up) by (vm_compute; done).
  split; [done|].
  destruct (proj1 (create_info_date_window env_up
                     (london_request "2026-11-03" "2026-11-05") start_world
                     (nov 3) (nov 5) eq_refl eq_refl Hle) (or_introl Hlt))
    as (detail & Hrun & Hd).
  rewrite Hrun, (Hd eq_refl). reflexivity.
Defined.

(** A range whose start is after its end is refused, the world untouched. *)
Lemma create_info_start_after_end_witness :
  nov 9 > nov 4
  ∧ create_info env_up (london_request "2026-11-09" "2026-11-04") london_world
    = (Raise (HTTPException 400 msg_order), london_world).
Proof.
  assert (Hgt : nov 9 > nov 4) by (vm_compute; done).
  split; [exact Hgt|].
  exact (create_info_start_after_end env_up
           (london_request "2026-11-09" "2026-11-04") london_world
           (nov 9) (nov 4) eq_refl eq_refl Hgt).
Defined.

(** A request whose start is after its end, seen through the HTTP surface:
    it is refused and the world is untouched. *)
Lemma rejected_requests_store_nothing_witness :
  handle env_up (PostWeatherInfos (london_request "2026-11-09" "2026-11-04")) london_world
  = (Raise (HTTPException 400 msg_order), london_world)
  ∧ msg_order ≠ msg_exists.
Proof.
  assert (Hrun : ∃ w', handle env_up
                         (PostWeatherInfos (london_request "2026-11-09" "2026-11-04"))
                         london_world
                       = (Raise (HTTPException 400 msg_order), w')).
  { eexists. vm_compute. reflexivity. }
  destruct Hrun as (w' & Hrun).
  assert (Hne : msg_order ≠ msg_exists) by discriminate.
  split; [|exact Hne].
  destruct (proj1 (rejected_requests_store_nothing env_up) _ _ _ _ Hrun)
    as (_ & Hsame & _).
  rewrite Hrun. f_equal. exact (Hsame Hne).
Defined.

(** Creating London without coordinates while it is stored: the weather
    provider is called for the coordinates, and then the request is
    rejected with the conflict error. *)
Lemma conflict_after_provider_call :
  let run := handle env_up (PostLocations london_location) london_world in
  run.1 = Raise (HTTPException 400 "Location already exists")
  ∧ trace london_world = []
  ∧ trace run.2 = [WeatherByCity (VStr "London") (VStr "GB");
                   Crud (GetLocationByCity (VStr "London") (VStr "GB"))].
Proof. vm_compute. done. Qed.

(** Quito, with its coordinates, is created on the empty database and a
    second creation is refused. *)
Lemma create_location_conflict_witness :
  truthy (dict_get quito_location "city") = true
  ∧ coordinates_given quito_location = true
  ∧ ¬ stored (VStr "Quito") (VStr "EC") (db start_world)
  ∧ ∃ l w',
      create_location env_down quito_location start_world = (Ok l, w')
      ∧ ∃ t, create_location env_down quito_location w'
             = (Raise (HTTPException 400 msg_exists),
                {| db := db w'; trace := trace w' ++ t |}).
Proof.
  assert (Hc : truthy (dict_get quito_location "city") = true) by reflexivity.
  assert (Hg : coordinates_given quito_location = true) by reflexivity.
  assert (Hn : ¬ stored (VStr "Quito") (VStr "EC") (db start_world)).
  { intros (l & Hin & _). cbn in Hin. by apply elem_of_nil in Hin. }
  split; [exact Hc|]. split; [exact Hg|]. split; [exact Hn|].
  destruct (create_location_conflict env_down quito_location start_world Hc)
    as (Hres & _).
  destruct (proj2 (Hres (or_introl Hg)) Hn)
    as (l & w' & Hrun & _ & _ & _ & Hagain & _).
  exists l, w'. split; [exact Hrun | exact (Hagain (or_introl Hg))].
Defined.

(** With the weather provider down, creating London without coordinates
    neither succeeds on the empty database nor reports the conflict when
    London is stored: both requests fail on the coordinate lookup and leave
    the database as it was. *)
Lemma create_location_provider_down :
  truthy (dict_get london_location "city") = true
  ∧ (¬ stored (VStr "London") (VStr "GB") (db start_world)
     ∧ (create_location env_down london_location start_world).1 = Raise CollaboratorError
     ∧ db (create_location env_down london_location start_world).2 = db start_world)
  ∧ (stored (VStr "London") (VStr "GB") (db london_world)
     ∧ (create_location env_down london_location london_world).1 = Raise CollaboratorError
     ∧ db (create_location env_down london_location london_world).2 = db london_world).
Proof.
  split; [reflexivity|]. split; (split; [|split]).
  - intros (l & Hin & _). cbn in Hin. by apply elem_of_nil in Hin.
  - vm_compute. reflexivity.
  - vm_compute. reflexivity.
  - exists london. split; [|done]. apply list_elem_of_singleton. reflexivity.
  - vm_compute. reflexivity.
  - vm_compute. reflexivity.
Qed.

(** Updating only the temperature of the stored record keeps its
    description. *)
Lemma update_info_frame_witness :
  find (fun i => bool_decide (info_id i = 1)) (weather_infos (db london_world))
  = Some london_record
  ∧ ∃ i' w',
      update_info 1 {[ "temperature" := VInt 12 ]} london_world = (Ok i', w')
      ∧ info_temperature i' = VInt 12
      ∧ info_weather_description i' = VStr "mist".
Proof.
  assert (Hf : find (fun i => bool_decide (info_id i = 1))
                 (weather_infos (db london_world)) = Some london_record)
    by (vm_compute; reflexivity).
  split; [exact Hf|].
  destruct (proj1 (update_info_frame 1 {[ "temperature" := VInt 12 ]} london_world)
              london_record Hf)
    as (i' & w' & Hrun & _ & _ & _ & _ & Ht & _ & _ & Hd & _).
  exists i', w'. split; [exact Hrun|]. split; [exact Ht|].
  exact (Hd eq_refl).
Defined.

(** The six records of [ingest_six_days] all have their raw data unset. *)
Lemma ingestion_leaves_raw_data_unset_witness :
  ∃ infos,
    (create_info env_up (london_request "2026-11-04" "2026-11-09") start_world).1
    = Ok infos
    ∧ Forall (fun i => i ∈ weather_infos (db start_world) ∨ info_raw_data i = VNone) infos.
Proof.
  destruct (create_info env_up (london_request "2026-11-04" "2026-11-09") start_world).1
    as [infos|e] eqn:Hrun; [|vm_compute in Hrun; discriminate].
  exists infos. split; [reflexivity|].
  exact (proj2 (ingestion_leaves_raw_data_unset env_up _ start_world) infos Hrun).
Defined.

(** London without coordinates: one provider call, and the coordinates of
    the response are stored. *)
Lemma create_location_coordinates_witness :
  truthy (dict_get london_location "city") = true
  ∧ coordinates_given london_location = false
  ∧ ∃ l w',
      create_location env_up london_location start_world = (Ok l, w')
      ∧ provider_calls (trace w') = [WeatherByCity (VStr "London") (VStr "GB")]
      ∧ loc_lat l = coord_lat london_now ∧ loc_lon l = coord_lon london_now.
Proof.
  assert (Hc : truthy (dict_get london_location "city") = true) by reflexivity.
  split; [exact Hc|]. split; [reflexivity|].
  destruct (create_location env_up london_location start_world) as [[l|e] w'] eqn:Hrun;
    [|vm_compute in Hrun; discriminate].
  exists l, w'. split; [reflexivity|].
  destruct (proj2 (create_location_coordinates env_up london_location start_world Hc)
              _ _ Hrun) as (Ht & Hl).
  split; [exact Ht|].
  destruct (Hl l eq_refl) as (data & Hdata & Hlat & Hlon).
  injection Hdata as <-. split; [exact Hlat | exact Hlon].
Defined.

(** A request with no city and no coordinates is rejected by the city
    check: no provider is called although both coordinates are falsy. *)
Lemma create_location_without_city :
  coordinates_given ∅ = false
  ∧ create_location env_up ∅ start_world
    = (Raise (HTTPException 400 "city is required"), start_world)
  ∧ provider_calls (trace start_world) = [].
Proof. vm_compute. done. Qed.

End Runs.

(** * Further properties of the handlers *)

(** ** The collaborator calls of an ingestion *)

Section IngestionCalls.

Context (E : env).

Lemma provider_calls_snoc_crud t c :
  provider_calls (t ++ [Crud c]) = provider_calls t.
Proof. rewrite provider_calls_app. cbn. apply app_nil_r. Qed.

Lemma provider_calls_fetch_call city country d :
  provider_calls [fetch_call E city country d] = [fetch_call E city country d].
Proof. unfold fetch_call. by case_bool_decide. Qed.

Lemma provider_calls_one_crud c : provider_calls [Crud c] = [].
Proof. reflexivity. Qed.

Lemma lookup_dates_app t t' : lookup_dates (t ++ t') = lookup_dates t ++ lookup_dates t'.
Proof. apply omap_app. Qed.

Lemma lookup_dates_fetch_call city country d :
  lookup_dates [fetch_call E city country d] = [].
Proof. unfold fetch_call. by case_bool_decide. Qed.

(** The calls of a run of the loop: what it adds to the trace holds one
    provider call per row it stored, and one more when it failed; at most
    one provider call and at most three calls in all per date; and the
    lookups are for the dates of the range in ascending order, all of them
    when the loop returned. *)
Lemma ingest_loop_calls loc city country end_ current acc w r w2 :
  ingest_loop E loc city country end_ current acc w = (r, w2) →
  ∃ t,
    trace w2 = trace w ++ t
    ∧ (length (provider_calls t) + length (weather_infos (db w))
       = length (weather_infos (db w2)) + provider_failed r)%nat
    ∧ (length (provider_calls t) ≤ length (date_range current end_))%nat
    ∧ (length t ≤ 3 * length (date_range current end_))%nat
    ∧ lookup_dates t `prefix_of` date_range current end_
    ∧ (∀ infos, r = Ok infos → lookup_dates t = date_range current end_).
Proof.
  revert current acc w r w2.
  apply (ingest_loop_ind E loc city country end_
           (fun current acc w r w2 =>
              ∃ t,
                trace w2 = trace w ++ t
                ∧ (length (provider_calls t) + length (weather_infos (db w))
                   = length (weather_infos (db w2)) + provider_failed r)%nat
                ∧ (length (provider_calls t) ≤ length (date_range current end_))%nat
                ∧ (length t ≤ 3 * length (date_range current end_))%nat
                ∧ lookup_dates t `prefix_of` date_range current end_
                ∧ (∀ infos, r = Ok infos → lookup_dates t = date_range current end_))).
  - intros current acc w Hlt. exists []. rewrite app_nil_r, date_range_nil by done.
    cbn. repeat split; try done; lia.
  - intros current acc w e w1 Hle Hd.
    apply ingest_date_inv in Hd as [(i & _ & ? & _)|[(_ & data & _ & ? & _)|(_ & _ & [= ->] & Hdb & Ht)]];
      try discriminate.
    exists ([Crud (GetInfoByLocDate (loc_id loc) current)]
            ++ [fetch_call E city country current]).
    split; [exact Ht|]. rewrite Hdb, date_range_cons by done.
    rewrite provider_calls_app, lookup_dates_app, provider_calls_fetch_call,
      lookup_dates_fetch_call, provider_calls_one_crud.
    cbn [app length lookup_dates omap list_omap provider_failed].
    split; [lia|]. split; [lia|]. split; [lia|]. split; [|discriminate].
    by apply prefix_cons, prefix_nil.
  - intros current acc w i w1 r w2 Hle Hd _ (t & Ht & Hacc & Hbound & Hlen & Hpre & Hall).
    rewrite date_range_cons by done. cbn [length].
    apply ingest_date_inv in Hd as [(i' & _ & _ & Hdb & Ht1)|[(_ & data & _ & _ & Hdb & Ht1)|(_ & _ & ? & _)]];
      try discriminate.
    + exists ([Crud (GetInfoByLocDate (loc_id loc) current)] ++ t).
      rewrite Ht, Ht1, <- app_assoc. split; [done|].
      rewrite Hdb in Hacc.
      rewrite provider_calls_app, lookup_dates_app, provider_calls_one_crud, length_app.
      cbn [app length lookup_dates omap list_omap].
      split; [lia|]. split; [lia|]. split; [lia|]. split.
      * by apply prefix_cons.
      * intros infos Hr. f_equal. by eapply Hall.
    + exists ([Crud (GetInfoByLocDate (loc_id loc) current)]
              ++ [fetch_call E city country current]
              ++ [Crud (CreateInfo (loc_id loc) current (main_temp data)
                          (weather0_description data))] ++ t).
      rewrite Ht, Ht1, <- app_assoc. split; [done|].
      rewrite Hdb in Hacc. cbn [set_infos weather_infos] in Hacc.
      rewrite length_app in Hacc. cbn [length] in Hacc.
      rewrite !provider_calls_app, !lookup_dates_app, provider_calls_fetch_call,
        lookup_dates_fetch_call, !provider_calls_one_crud, !length_app.
      cbn [app length lookup_dates omap list_omap].
      split; [lia|]. split; [lia|]. split; [lia|]. split.
      * by apply prefix_cons.
      * intros infos Hr. f_equal. by eapply Hall.
Qed.

Lemma provider_calls_crud_weather c1 city country :
  provider_calls [Crud c1; WeatherByCity city country] = [WeatherByCity city country].
Proof. reflexivity. Qed.

Lemma provider_calls_crud_weather_crud c1 city country c2 :
  provider_calls [Crud c1; WeatherByCity city country; Crud c2]
  = [WeatherByCity city country].
Proof. reflexivity. Qed.

Lemma fetch_and_store_calls city country start end_ w r w2 :
  fetch_and_store E city country start end_ w = (r, w2) →
  ∃ t,
    trace w2 = trace w ++ t
    ∧ (length (provider_calls t) + length (weather_infos (db w))
       + length (locations (db w))
       = length (weather_infos (db w2)) + length (locations (db w2))
         + provider_failed r)%nat
    ∧ (length (provider_calls t) ≤ 1 + length (date_range start end_))%nat
    ∧ (length t ≤ 3 + 3 * length (date_range start end_))%nat
    ∧ lookup_dates t `prefix_of` date_range start end_
    ∧ (∀ infos, r = Ok infos → lookup_dates t = date_range start end_).
Proof.
  intros Hrun. apply fetch_and_store_inv in Hrun
    as [(-> & Hdb & _ & Ht)|(loc & w1 & t0 & Hloop & _ & Hi & Ht0 & Hcase)].
  - eexists. split; [exact Ht|]. rewrite Hdb, provider_calls_crud_weather.
    cbn [length provider_failed lookup_dates omap list_omap].
    split; [lia|]. split; [lia|]. split; [lia|]. split; [apply prefix_nil | discriminate].
  - pose proof (ingest_loop_effect _ _ _ _ _ _ _ _ _ _ Hloop) as (Hlocs & _).
    apply ingest_loop_calls in Hloop as (t & Ht & Hacc & Hbound & Hlen & Hpre & Hall).
    exists (t0 ++ t). rewrite Ht, Ht0, <- app_assoc. split; [done|].
    rewrite Hi in Hacc. rewrite Hlocs, provider_calls_app, lookup_dates_app, !length_app.
    destruct Hcase as [(_ & -> & ->)|(_ & -> & data & _ & _ & ->)].
    + rewrite provider_calls_one_crud.
      cbn [app length lookup_dates omap list_omap].
      split; [lia|]. split; [lia|]. split; [lia|]. by split.
    + rewrite provider_calls_crud_weather_crud, length_app.
      cbn [app length lookup_dates omap list_omap].
      split; [lia|]. split; [lia|]. split; [lia|]. by split.
Qed.

Lemma paired_read h c t :
  is_insert c = false → paired E h (Crud c :: t) = paired E (h ++ [Crud c]) t.
Proof. intros Hc. cbn [paired]. by rewrite Hc. Qed.

Lemma response_fetch_call h city country d :
  weather_response E h (fetch_call E city country d) = fetch_response E h city country d.
Proof. unfold fetch_call, fetch_response. by case_bool_decide. Qed.

Lemma paired_fetch_stored h city country d data c t :
  fetch_response E h city country d = Some data →
  stores c data = true →
  paired E h (fetch_call E city country d :: Crud c :: t)
  = paired E (h ++ [fetch_call E city country d; Crud c]) t.
Proof.
  intros Hr Hs. rewrite <- response_fetch_call in Hr.
  destruct (fetch_call E city country d) as [c0 k0|d0 c0 k0|q n|c0] eqn:He;
    [| |unfold fetch_call in He; case_bool_decide; discriminate
       |unfold fetch_call in He; case_bool_decide; discriminate];
    cbn [paired]; by rewrite Hr, Hs.
Qed.

Lemma paired_fetch_failed h city country d :
  fetch_response E h city country d = None →
  paired E h [fetch_call E city country d] = true.
Proof.
  intros Hr. rewrite <- response_fetch_call in Hr.
  destruct (fetch_call E city country d) as [c0 k0|d0 c0 k0|q n|c0] eqn:He;
    [| |unfold fetch_call in He; case_bool_decide; discriminate
       |unfold fetch_call in He; case_bool_decide; discriminate];
    cbn [paired]; by rewrite Hr.
Qed.

(** The fetches and the inserts of a run of the loop go in pairs. *)
Lemma ingest_loop_paired loc city country end_ current acc w r w2 :
  ingest_loop E loc city country end_ current acc w = (r, w2) →
  ∃ t, trace w2 = trace w ++ t ∧ paired E (trace w) t = true.
Proof.
  revert current acc w r w2.
  apply (ingest_loop_ind E loc city country end_
           (fun current acc w r w2 =>
              ∃ t, trace w2 = trace w ++ t ∧ paired E (trace w) t = true)).
  - intros current acc w _. exists []. by rewrite app_nil_r.
  - intros current acc w e w1 Hle Hd.
    apply ingest_date_inv in Hd as [(i & _ & ? & _)|[(_ & data & _ & ? & _)|(_ & Hr & _ & _ & Ht)]];
      try discriminate.
    eexists. split; [exact Ht|].
    rewrite paired_read by reflexivity. by apply paired_fetch_failed.
  - intros current acc w i w1 r w2 Hle Hd _ (t & Ht & Hp).
    apply ingest_date_inv in Hd as [(i' & _ & _ & _ & Ht1)|[(_ & data & Hr & _ & _ & Ht1)|(_ & _ & ? & _)]];
      try discriminate.
    + exists ([Crud (GetInfoByLocDate (loc_id loc) current)] ++ t).
      rewrite Ht, Ht1, <- app_assoc. split; [done|].
      cbn [app]. rewrite paired_read by reflexivity. by rewrite <- Ht1.
    + exists ([Crud (GetInfoByLocDate (loc_id loc) current);
               fetch_call E city country current;
               Crud (CreateInfo (loc_id loc) current (main_temp data)
                       (weather0_description data))] ++ t).
      rewrite Ht, Ht1, <- app_assoc. split; [done|].
      cbn [app]. rewrite paired_read by reflexivity.
      rewrite (paired_fetch_stored _ _ _ _ data)
        by (try exact Hr; cbn [stores]; by apply bool_decide_eq_true_2).
      rewrite <- app_assoc. cbn [app]. by rewrite <- Ht1.
Qed.

Lemma fetch_and_store_paired city country start end_ w r w2 :
  fetch_and_store E city country start end_ w = (r, w2) →
  ∃ t, trace w2 = trace w ++ t ∧ paired E (trace w) t = true.
Proof.
  rewrite fetch_and_store_run. cbv zeta.
  destruct (find _ _) as [l|].
  - intros Hloop. apply ingest_loop_paired in Hloop as (t & Ht & Hp).
    cbn [log db trace] in Ht, Hp.
    eexists. rewrite Ht, <- app_assoc. split; [done|].
    cbn [app]. by rewrite paired_read by reflexivity.
  - destruct (get_weather_by_city E _ city country) as [data|] eqn:Hw.
    + intros Hloop. apply ingest_loop_paired in Hloop as (t & Ht & Hp).
      cbn [db trace] in Ht, Hp.
      eexists. rewrite Ht, <- app_assoc. split; [done|].
      cbn [app]. rewrite paired_read by reflexivity.
      cbn [paired weather_response stores]. rewrite Hw.
      rewrite bool_decide_eq_true_2 by done. cbn [andb].
      rewrite <- app_assoc. exact Hp.
    + intros [= <- <-]. eexists. split; [done|].
      rewrite paired_read by reflexivity. cbn [paired weather_response]. by rewrite Hw.
Qed.

(** X1: every provider call of an ingestion request is accounted for.  The
    number of provider calls the request makes equals the number of
    WeatherInfo rows it stores, plus the number of locations it stores, plus
    one when it fails on a provider call.  And in the calls of the request,
    fetches and inserts go in pairs: every answered provider call is followed
    at once by the insert that stores its response (the coordinates for a
    new location, the temperature and the description for a new record), a
    provider call that is not answered is the last call of the request, and
    no insert is made but after such a fetch.  So no response is fetched and
    then dropped, and nothing is stored without a fetch. *)
Theorem create_info_call_accounting input w :
  let run := create_info E input w in
  ∃ t,
    trace run.2 = trace w ++ t
    ∧ (length (provider_calls t) + length (weather_infos (db w))
       + length (locations (db w))
       = length (weather_infos (db run.2)) + length (locations (db run.2))
         + provider_failed run.1)%nat
    ∧ paired E (trace w) t = true.
Proof.
  cbv zeta. destruct (create_info E input w) as [r w'] eqn:Hrun. cbn [fst snd].
  destruct (create_info_cases E input w) as [(e & He & Hkind)|(start & end_ & _ & Heq)].
  - rewrite He in Hrun. injection Hrun as <- <-. exists []. rewrite app_nil_r.
    split; [done|]. split; [|reflexivity].
    destruct Hkind as [->|(detail & -> & _)]; cbn; lia.
  - rewrite Heq in Hrun.
    destruct (fetch_and_store_calls _ _ _ _ _ _ _ Hrun) as (t & Ht & Hacc & _).
    destruct (fetch_and_store_paired _ _ _ _ _ _ _ Hrun) as (t' & Ht' & Hp).
    rewrite Ht in Ht'. apply app_inv_head in Ht' as <-.
    by exists t.
Qed.

(** X2: an ingestion request makes at most 7 provider calls and at most 21
    collaborator calls in all, whatever the database holds and whatever the
    providers answer: one coordinate lookup, and per date of the range (of at
    most 6 dates) one lookup, one fetch and one insert. *)
Theorem create_info_call_bound input w :
  ∃ t,
    trace (create_info E input w).2 = trace w ++ t
    ∧ (length (provider_calls t) ≤ 7)%nat
    ∧ (length t ≤ 21)%nat.
Proof.
  destruct (create_info E input w) as [r w'] eqn:Hrun. cbn [snd].
  destruct (create_info_cases E input w) as [(e & He & _)|(start & end_ & Hv & Heq)].
  - rewrite He in Hrun. injection Hrun as <- <-. exists []. rewrite app_nil_r.
    split; [done|]. cbn. split; lia.
  - rewrite Heq in Hrun.
    apply fetch_and_store_calls in Hrun as (t & Ht & _ & Hbound & Hlen & _).
    pose proof (start_le_end _ _ _ _ Hv).
    pose proof (start_in_window _ _ _ _ Hv) as [? ?].
    pose proof (end_in_window _ _ _ _ Hv) as [? ?].
    rewrite date_range_length in Hbound, Hlen by done.
    exists t. split; [done|]. split; lia.
Qed.

(** X3: the dates of an ingestion request are processed in ascending order
    and none is skipped: the dates the request looks up in the database, in
    the order of the lookups, form an initial segment of the range from
    start to end, and the whole range when the request returns. *)
Theorem create_info_lookup_order input w start end_ :
  validated E input start end_ →
  ∃ t,
    trace (create_info E input w).2 = trace w ++ t
    ∧ lookup_dates t `prefix_of` date_range start end_
    ∧ (∀ infos, (create_info E input w).1 = Ok infos →
                lookup_dates t = date_range start end_).
Proof.
  intros Hv. rewrite (create_info_validated _ _ _ _ _ Hv).
  destruct (fetch_and_store E _ _ start end_ w) as [r w'] eqn:Hrun. cbn [fst snd].
  apply fetch_and_store_calls in Hrun as (t & Ht & _ & _ & _ & Hpre & Hall).
  by exists t.
Qed.

End IngestionCalls.

(** ** Dates that do not parse, and the location of an ingestion *)

Section IngestionEdges.

Context (E : env).

(** X4: a date field of an ingestion request that is present but malformed
    is answered with the 400 format error; one that is present but not a
    string (a number, [true]) is not: the [TypeError] of
    [date.fromisoformat] is not caught and escapes.  The start date is
    examined first, so its failure decides when both dates are bad.  In
    each case nothing was called and nothing stored. *)
Theorem create_info_date_parsing input w :
  present input = true →
  (∀ a, dict_get input "start_date" = VStr a → fromisoformat E a = None →
        create_info E input w = (Raise (HTTPException 400 msg_format), w))
  ∧ ((∀ a, dict_get input "start_date" ≠ VStr a) →
     create_info E input w = (Raise TypeError, w))
  ∧ (∀ a start,
       dict_get input "start_date" = VStr a → fromisoformat E a = Some start →
       (∀ b, dict_get input "end_date" = VStr b → fromisoformat E b = None →
             create_info E input w = (Raise (HTTPException 400 msg_format), w))
       ∧ ((∀ b, dict_get input "end_date" ≠ VStr b) →
          create_info E input w = (Raise TypeError, w))).
Proof.
  intros Hp. unfold present in Hp.
  apply andb_true_iff in Hp as [Hp H3]. apply andb_true_iff in Hp as [H1 H2].
  assert (Hrun : create_info E input w =
                 match parse_dates E (dict_get input "start_date")
                         (dict_get input "end_date") w with
                 | (Raise e, w') => (Raise e, w')
                 | (Ok p, w') => create_info E input w
                 end).
  { unfold create_info at 1. rewrite H1, H2, H3. cbn [negb orb]. rewrite bind_run.
    destruct (parse_dates E _ _ w) as [[[s e]|e] w'] eqn:Hpd; [|done].
    unfold create_info. rewrite H1, H2, H3. cbn [negb orb]. by rewrite bind_run, Hpd. }
  split; [|split].
  - intros a Ha Hn. rewrite Hrun. unfold parse_dates, date_fromisoformat.
    by rewrite Ha, Hn.
  - intros Hns. rewrite Hrun. unfold parse_dates, date_fromisoformat.
    destruct (dict_get input "start_date") as [| | | |a]; try done.
    by destruct (Hns a).
  - intros a start Ha Hs. split.
    + intros b Hb Hn. rewrite Hrun. unfold parse_dates, date_fromisoformat.
      by rewrite Ha, Hs, Hb, Hn.
    + intros Hns. rewrite Hrun. unfold parse_dates, date_fromisoformat.
      rewrite Ha, Hs.
      destruct (dict_get input "end_date") as [| | | |b]; try done.
      by destruct (Hns b).
Qed.

(** X5: a validated ingestion request creates the location of its (city,
    country) exactly when none is stored.  When one is stored the stored
    locations stay as they are.  When none is stored, the coordinates are
    looked up at the provider: if the lookup fails the request fails and
    nothing is stored; if it answers, one location with the coordinates of
    the response is appended, and it stays stored whatever happens to the
    dates afterwards, also when a later fetch fails. *)
Theorem ingestion_resolves_location input w start end_ :
  validated E input start end_ →
  let city := dict_get input "city" in
  let country := dict_get input "country" in
  let look := Crud (GetLocationByCity city country) in
  let run := create_info E input w in
  (stored city country (db w) → locations (db run.2) = locations (db w))
  ∧ (¬ stored city country (db w) →
     match get_weather_by_city E (trace w ++ [look]) city country with
     | Some data =>
         locations (db run.2)
         = locations (db w)
           ++ [new_location (db w) city country (coord_lat data) (coord_lon data)]
     | None =>
         run = (Raise CollaboratorError,
                {| db := db w; trace := trace w ++ [look; WeatherByCity city country] |})
     end).
Proof.
  intros Hv city country look run. subst run.
  rewrite (create_info_validated _ _ _ _ _ Hv). fold city country.
  rewrite fetch_and_store_run. cbv zeta. fold look.
  destruct (find (same_city city country) (locations (db w))) as [l|] eqn:Hf.
  - split.
    + intros _.
      destruct (ingest_loop E l city country end_ start [] (log look w)) as [r w'] eqn:Hloop.
      cbn [snd]. by apply ingest_loop_effect in Hloop as (-> & _).
    + intros Hns. apply find_same_city_None in Hns. congruence.
  - split.
    + intros Hst. by apply find_same_city_None in Hf.
    + intros _.
      destruct (get_weather_by_city E (trace w ++ [look]) city country) as [data|];
        [|done].
      match goal with
      | |- context [ingest_loop E ?l city country end_ start [] ?w0] =>
          destruct (ingest_loop E l city country end_ start [] w0) as [r w'] eqn:Hloop
      end.
      cbn [snd]. by apply ingest_loop_effect in Hloop as (-> & _).
Qed.

End IngestionEdges.

(** ** Reading back what was ingested *)

Section ReadBack.

Context (E : env).

Lemma get_info_by_loc_date_run location_id s d w :
  fromisoformat E s = Some d →
  get_info_by_loc_date E location_id s w =
  let w' := {| db := db w; trace := trace w ++ [Crud (GetInfoByLocDate location_id d)] |} in
  match find (same_loc_date location_id d) (weather_infos (db w)) with
  | Some i => (Ok i, w')
  | None => (Raise (HTTPException 404 "Weather info not found"), w')
  end.
Proof.
  intros Hs. unfold get_info_by_loc_date. rewrite Hs.
  unfold crud.get_info_by_loc_date, crud.run. rewrite bind_run.
  by destruct (find _ _).
Qed.

Lemma get_infos_by_loc_date_range_run location_id a b start end_ w :
  fromisoformat E a = Some start → fromisoformat E b = Some end_ →
  get_infos_by_loc_date_range E location_id a b w =
  let w' := {| db := db w;
               trace := trace w ++ [Crud (GetInfosByLocDateRange location_id start end_)] |} in
  match filter (fun i => info_location_id i = location_id
                         ∧ start ≤ info_date i ∧ info_date i ≤ end_)
               (weather_infos (db w)) with
  | [] => (Raise (HTTPException 404 "Weather info not found"), w')
  | infos => (Ok infos, w')
  end.
Proof.
  intros Ha Hb. unfold get_infos_by_loc_date_range. rewrite Ha, Hb.
  unfold crud.get_infos_by_loc_date_range, crud.run. rewrite bind_run.
  by destruct (filter _ _).
Qed.

(** X6: what an ingestion returned can be read back.  After a validated
    request returned, the by-date endpoint, asked for the request's location
    and the k-th date of the range, returns the k-th record of the returned
    sequence; and the by-date-range endpoint, asked for the whole range,
    returns a list that holds every returned record. *)
Theorem ingested_records_read_back input w start end_ infos w' :
  validated E input start end_ →
  create_info E input w = (Ok infos, w') →
  ∃ loc,
    find (same_city (dict_get input "city") (dict_get input "country"))
         (locations (db w')) = Some loc
    ∧ (∀ k i s,
         infos !! k = Some i →
         fromisoformat E s = Some (start + Z.of_nat k) →
         (get_info_by_loc_date E (loc_id loc) s w').1 = Ok i)
    ∧ (∀ a b,
         fromisoformat E a = Some start → fromisoformat E b = Some end_ →
         ∃ found,
           (get_infos_by_loc_date_range E (loc_id loc) a b w').1 = Ok found
           ∧ infos ⊆ found).
Proof.
  intros Hv Hrun. rewrite (create_info_validated _ _ _ _ _ Hv) in Hrun.
  apply fetch_and_store_result in Hrun as (loc & Hloc & HF).
  exists loc. split; [exact Hloc|]. split.
  - intros k i s Hk Hs.
    destruct (Forall2_lookup_r _ _ _ _ _ HF Hk) as (d & Hd & Hf).
    unfold date_range in Hd. apply lookup_seqZ in Hd as [-> _].
    rewrite (get_info_by_loc_date_run _ _ _ _ Hs). cbv zeta. by rewrite Hf.
  - intros a b Ha Hb.
    rewrite (get_infos_by_loc_date_range_run _ _ _ _ _ _ Ha Hb). cbv zeta.
    assert (Hsub : infos ⊆ filter (fun i => info_location_id i = loc_id loc
                                            ∧ start ≤ info_date i ∧ info_date i ≤ end_)
                              (weather_infos (db w'))).
    { intros i Hi. apply list_elem_of_lookup in Hi as [k Hk].
      destruct (Forall2_lookup_r _ _ _ _ _ HF Hk) as (d & Hd & Hf).
      unfold date_range in Hd. apply lookup_seqZ in Hd as [-> Hlt].
      apply find_Some_holds in Hf as [Hp Hin].
      apply bool_decide_eq_true in Hp as [Hl Hdate].
      apply list_elem_of_filter. split; [|done]. split; [done|]. lia. }
    destruct (filter _ _) as [|i0 found] eqn:Hfl.
    + pose proof (start_le_end _ _ _ _ Hv) as Hle.
      assert (Hk : date_range start end_ !! 0%nat = Some start).
      { unfold date_range. apply lookup_seqZ. lia. }
      destruct (Forall2_lookup_l _ _ _ _ _ HF Hk) as (i & Hi & _).
      apply list_elem_of_lookup_2, Hsub in Hi. by apply elem_of_nil in Hi.
    + by exists (i0 :: found).
Qed.

(** X7: the by-date-range endpoint has no check of the order of its dates,
    unlike ingestion.  A range whose start is after its end is not rejected
    as a bad request: it is passed to the data-access layer as given, no
    record lies in it, and the answer is the 404 "not found" error.  A
    malformed start date is rejected with 400 before the end date is looked
    at. *)
Theorem range_query_reversed location_id a b w :
  (fromisoformat E a = None →
   get_infos_by_loc_date_range E location_id a b w
   = (Raise (HTTPException 400 msg_format), w))
  ∧ (∀ start end_,
       fromisoformat E a = Some start → fromisoformat E b = Some end_ →
       start > end_ →
       get_infos_by_loc_date_range E location_id a b w
       = (Raise (HTTPException 404 "Weather info not found"),
          {| db := db w;
             trace := trace w ++ [Crud (GetInfosByLocDateRange location_id start end_)] |})).
Proof.
  split.
  - intros Ha. unfold get_infos_by_loc_date_range. by rewrite Ha.
  - intros start end_ Ha Hb Hgt.
    rewrite (get_infos_by_loc_date_range_run _ _ _ _ _ _ Ha Hb). cbv zeta.
    replace (filter _ _) with (@nil WeatherInfo); [done|].
    symmetry. induction (weather_infos (db w)) as [|i rows IH]; [done|].
    rewrite filter_cons_False by lia. exact IH.
Qed.

(** X8: a location made by create-location is the one a later ingestion for
    the same (city, country) works with: the ingestion looks no coordinates
    up and creates no location, and every row it adds references the
    location create-location returned. *)
Theorem create_location_then_ingest location w l w1 input start end_ :
  create_location E location w = (Ok l, w1) →
  validated E input start end_ →
  dict_get input "city" = dict_get location "city" →
  dict_get input "country" = dict_get location "country" →
  let run := create_info E input w1 in
  locations (db run.2) = locations (db w1)
  ∧ (∃ added,
       weather_infos (db run.2) = weather_infos (db w1) ++ added
       ∧ Forall (fun i => info_location_id i = loc_id l) added)
  ∧ ∃ t, trace run.2 = trace w1 ++ t
         ∧ ∀ c k lat lon, Crud (CreateLocation c k lat lon) ∉ t.
Proof.
  intros Hcreate Hv Hc Hk run. subst run.
  assert (Hloc : find (same_city (dict_get input "city") (dict_get input "country"))
                   (locations (db w1)) = Some l).
  { rewrite Hc, Hk. revert Hcreate. rewrite create_location_run. cbv zeta.
    destruct (truthy (dict_get location "city")); [|discriminate].
    destruct (find (same_city _ _) (locations (db w))) eqn:Hf.
    { destruct (coordinates_given location); [discriminate|].
      by destruct (get_weather_by_city _ _ _ _). }
    assert (Hnew : ∀ lat lon,
               find (same_city (dict_get location "city") (dict_get location "country"))
                 (locations (db w)
                  ++ [new_location (db w) (dict_get location "city")
                        (dict_get location "country") lat lon])
               = Some (new_location (db w) (dict_get location "city")
                         (dict_get location "country") lat lon)).
    { intros lat lon. rewrite find_app_None by done. cbn [find].
      by rewrite same_city_new_location. }
    destruct (coordinates_given location).
    - intros [= <- <-]. apply Hnew.
    - destruct (get_weather_by_city _ _ _ _); [|discriminate].
      intros [= <- <-]. apply Hnew. }
  rewrite (create_info_validated _ _ _ _ _ Hv).
  rewrite (fetch_and_store_known _ _ _ _ _ _ _ Hloc).
  destruct (ingest_loop E l _ _ end_ start [] _) as [r w2] eqn:Hloop. cbn [snd].
  apply ingest_loop_effect in Hloop as (Hlocs & (added & Ha & HFa) & (t & Ht & HFt) & _).
  cbn [log db trace] in *. split; [done|]. split.
  - exists added. split; [done|]. eapply Forall_impl; [exact HFa|]. by intros i (_ & ? & _).
  - eexists. rewrite Ht, <- app_assoc. split; [done|].
    intros c k lat lon Hin. apply elem_of_cons in Hin as [Hin|Hin]; [discriminate|].
    rewrite Forall_forall in HFt. by apply HFt in Hin.
Qed.


End ReadBack.

(** ** What every request keeps *)

Section Invariants.

Context (E : env).

Lemma fmap_run {A B : Type} (f : A → B) (m : M A) w :
  ((f <$> m) w).2 = (m w).2.
Proof. cbv [fmap M_fmap]. by destruct (m w) as [[a|e] w']. Qed.

Lemma export_rows_world infos w : (export_rows E infos w).2 = w.
Proof.
  induction infos as [|i infos IH]; cbn [export_rows]; [done|].
  rewrite bind_run. unfold location_of at 1.
  destruct (find _ _); [|done]. rewrite bind_run.
  destruct (export_rows E infos w) as [[rows|e] w'] eqn:Hrest; cbn in IH; by subst.
Qed.

(** The world after a request that is neither create-location nor
    ingestion: one call to the data-access layer (and the video search, for
    the videos endpoint), and the database the call leaves. *)
Lemma handle_other r w :
  let b := db w in
  let w' := (handle E r w).2 in
  match r with
  | PostLocations _ | PostWeatherInfos _ => True
  | GetByLocDate _ s => w' = w ∨ ∃ c, w' = {| db := b; trace := trace w ++ [Crud c] |}
  | GetByLocDateRange _ s1 s2 =>
      w' = w ∨ ∃ c, w' = {| db := b; trace := trace w ++ [Crud c] |}
  | GetVideos location_id max_results =>
      ∃ c, w' = {| db := b; trace := trace w ++ [Crud c] |}
           ∨ ∃ query, w' = {| db := b;
                              trace := trace w ++ [Crud c; YoutubeSearch query max_results] |}
  | DeleteLocations location_id =>
      ∃ c, trace w' = trace w ++ [Crud c]
           ∧ (db w' = b
              ∨ locations (db w')
                = remove_first (fun l => bool_decide (loc_id l = location_id)) (locations b)
                ∧ weather_infos (db w')
                  = filter (fun i => info_location_id i ≠ location_id) (weather_infos b))
  | PutWeatherInfo info_id_ updates =>
      ∃ c, trace w' = trace w ++ [Crud c]
           ∧ locations (db w') = locations b
           ∧ (weather_infos (db w') = weather_infos b
              ∨ weather_infos (db w')
                = update_first (fun i => bool_decide (info_id i = info_id_))
                    (apply_updates updates) (weather_infos b))
  | DeleteWeatherInfo info_id_ =>
      ∃ c, trace w' = trace w ++ [Crud c]
           ∧ locations (db w') = locations b
           ∧ (weather_infos (db w') = weather_infos b
              ∨ weather_infos (db w')
                = remove_first (fun i => bool_decide (info_id i = info_id_)) (weather_infos b))
  | _ => ∃ c, w' = {| db := b; trace := trace w ++ [Crud c] |}
  end.
Proof.
  cbv zeta. destruct r; cbn [handle]; try done; rewrite fmap_run.
  - by eexists.
  - unfold delete_location, crud.delete_location, crud.run. rewrite bind_run.
    eexists. destruct (find _ _); cbn; split; try done; [by right | by left].
  - by eexists.
  - unfold get_info, crud.get_info, crud.run. rewrite bind_run.
    eexists. by destruct (find _ _).
  - unfold update_info, crud.update_info, crud.run. rewrite bind_run.
    eexists. destruct (find _ _); cbn; repeat split; try done; [by right | by left].
  - unfold delete_weather_info, crud.delete_info, crud.run. rewrite bind_run.
    eexists. destruct (find _ _); cbn; repeat split; try done; [by right | by left].
  - unfold get_info_by_loc_date. destruct (fromisoformat E look_up_date); [|by left].
    right. unfold crud.get_info_by_loc_date, crud.run. rewrite bind_run.
    eexists. by destruct (find _ _).
  - unfold get_infos_by_loc_date_range.
    destruct (fromisoformat E start_date); [|by left].
    destruct (fromisoformat E end_date); [|by left].
    right. unfold crud.get_infos_by_loc_date_range, crud.run. rewrite bind_run.
    eexists. by destruct (filter _ _).
  - unfold export_json, crud.list_infos, crud.run. rewrite bind_run.
    cbn beta iota. rewrite export_rows_world. by eexists.
  - unfold get_location_videos, crud.get_location, crud.run. rewrite bind_run.
    eexists. destruct (find _ _) as [l|]; [|by left]. right.
    cbn beta iota. rewrite bind_run. unfold youtube_search.
    eexists. destruct (search_youtube_videos _ _ _ _); rewrite ?ret_run;
      unfold log; cbn [db trace snd]; by rewrite <- app_assoc.
Qed.

(** The database after create-location. *)
Lemma create_location_db location w :
  let city := dict_get location "city" in
  let country := dict_get location "country" in
  let w' := (create_location E location w).2 in
  (∃ t, trace w' = trace w ++ t
        ∧ Forall (fun e => is_provider_call e = true → e = WeatherByCity city country) t)
  ∧ (db w' = db w
     ∨ find (same_city city country) (locations (db w)) = None
       ∧ ∃ lat lon,
           db w' = set_locations
                     (locations (db w) ++ [new_location (db w) city country lat lon]) (db w)).
Proof.
  cbv zeta. rewrite create_location_run. cbv zeta.
  destruct (truthy (dict_get location "city")).
  2:{ split; [|by left]. exists []. by rewrite app_nil_r. }
  destruct (coordinates_given location).
  - destruct (find _ _) eqn:Hf; cbn [snd log db trace].
    + split; [|by left]. eexists. split; [done|]. by repeat constructor.
    + split; [|right; split; [done|]; by eexists _, _].
      eexists. split; [done|]. by repeat constructor.
  - destruct (get_weather_by_city _ _ _ _); cbn [snd log db trace].
    + destruct (find _ _) eqn:Hf; cbn [snd log db trace]; rewrite <- app_assoc.
      * split; [|by left]. eexists. split; [done|]. by repeat constructor.
      * split; [|right; split; [done|]; by eexists _, _].
        eexists. split; [done|]. by repeat constructor.
    + split; [|by left]. eexists. split; [done|]. by repeat constructor.
Qed.

(** The database after an ingestion request, whatever its outcome. *)
Lemma create_info_db input w :
  let city := dict_get input "city" in
  let country := dict_get input "country" in
  let w' := (create_info E input w).2 in
  (locations (db w') = locations (db w)
   ∨ find (same_city city country) (locations (db w)) = None
     ∧ ∃ loc, loc_city loc = city ∧ loc_country loc = country
              ∧ locations (db w') = locations (db w) ++ [loc])
  ∧ (∃ added,
       weather_infos (db w') = weather_infos (db w) ++ added
       ∧ Forall (fun i => ∃ loc, loc ∈ locations (db w')
                                 ∧ info_location_id i = loc_id loc) added)
  ∧ (∀ l d, rows_of l d (db w') = rows_of l d (db w)
            ∨ rows_of l d (db w) = 0%nat ∧ rows_of l d (db w') = 1%nat).
Proof.
  cbv zeta. destruct (create_info E input w) as [r w'] eqn:Hrun. cbn [snd].
  destruct (create_info_cases E input w) as [(e & He & _)|(start & end_ & _ & Heq)].
  { rewrite He in Hrun. injection Hrun as _ <-.
    split; [by left|]. split; [|by left]. exists []. by rewrite app_nil_r. }
  rewrite Heq in Hrun.
  pose proof (fetch_and_store_effect _ _ _ _ _ _ _ _ Hrun) as (_ & _ & Hrows).
  split; [|split; [|done]].
  - apply fetch_and_store_inv in Hrun
      as [(_ & -> & _)|(loc & w1 & t0 & Hloop & _ & _ & _ & Hcase)]; [by left|].
    apply ingest_loop_effect in Hloop as (-> & _).
    destruct Hcase as [(_ & -> & _)|(Hnone & -> & data & _ & -> & _)]; [by left|].
    right. split; [done|].
    by exists (new_location (db w) (dict_get input "city") (dict_get input "country")
                 (coord_lat data) (coord_lon data)).
  - apply fetch_and_store_inv in Hrun
      as [(_ & -> & _)|(loc & w1 & t0 & Hloop & Hloc & Hi & _ & _)].
    { exists []. by rewrite app_nil_r. }
    apply ingest_loop_effect in Hloop as (Hlocs & (added & Ha & HFa) & _).
    exists added. rewrite Ha, Hi. split; [done|].
    eapply Forall_impl; [exact HFa|]. intros i (_ & Hid & _).
    exists loc. split; [|done]. rewrite Hlocs.
    by apply find_Some_holds in Hloc as [_ ?].
Qed.

Lemma NoDup_fmap_remove_first {A B : Type} (f : A → B) (p : A → bool) (l : list A) :
  NoDup (f <$> l) → NoDup (f <$> remove_first p l).
Proof.
  induction l as [|x l IH]; cbn [remove_first]; [done|].
  rewrite fmap_cons, NoDup_cons. intros [Hx Hl].
  destruct (p x); [done|]. rewrite fmap_cons, NoDup_cons. split; [|auto].
  intros Hin. apply Hx. apply list_elem_of_fmap in Hin as (y & -> & Hy).
  apply list_elem_of_fmap. exists y. split; [done|].
  clear -Hy. induction l as [|z l IHl]; cbn [remove_first] in Hy; [done|].
  destruct (p z); [by right|].
  apply elem_of_cons in Hy as [->|Hy]; [by left | right; auto].
Qed.

Lemma filter_remove_first_length {A : Type} (P : A → Prop) `{!∀ x, Decision (P x)}
    (p : A → bool) (l : list A) :
  (length (filter P (remove_first p l)) ≤ length (filter P l))%nat.
Proof.
  induction l as [|x l IH]; cbn [remove_first]; [done|].
  destruct (p x).
  - destruct (decide (P x)); [rewrite filter_cons_True by done; cbn; lia|].
    by rewrite filter_cons_False.
  - destruct (decide (P x)).
    + rewrite !filter_cons_True by done. cbn. lia.
    + by rewrite !filter_cons_False.
Qed.

Lemma filter_update_first_length {A : Type} (P : A → Prop) `{!∀ x, Decision (P x)}
    (p : A → bool) (f : A → A) (l : list A) :
  (∀ x, P (f x) ↔ P x) →
  length (filter P (update_first p f l)) = length (filter P l).
Proof.
  intros Hf. induction l as [|x l IH]; cbn [update_first]; [done|].
  destruct (p x).
  - destruct (decide (P x)) as [HP|HP].
    + rewrite !filter_cons_True by (done || by apply Hf). done.
    + rewrite !filter_cons_False; [done..|]. by rewrite Hf.
  - destruct (decide (P x)).
    + rewrite !filter_cons_True by done. cbn. by rewrite IH.
    + by rewrite !filter_cons_False.
Qed.

Lemma filter_filter_length {A : Type} (P Q : A → Prop) `{!∀ x, Decision (P x)}
    `{!∀ x, Decision (Q x)} (l : list A) :
  (length (filter P (filter Q l)) ≤ length (filter P l))%nat.
Proof.
  induction l as [|x l IH]; [done|].
  destruct (decide (Q x)).
  - rewrite (filter_cons_True Q) by done.
    destruct (decide (P x)).
    + rewrite !filter_cons_True by done. cbn. lia.
    + by rewrite !filter_cons_False.
  - rewrite (filter_cons_False Q) by done.
    destruct (decide (P x)); [rewrite filter_cons_True by done; cbn; lia|].
    by rewrite filter_cons_False.
Qed.

(** X10: no request makes two locations share a (city, country) pair: if
    the pairs of the stored locations are distinct before a request, they
    are distinct after it, whatever the request and its outcome.  Both
    paths that store a location, create-location and ingestion, look the
    pair up first. *)
Theorem handle_keeps_unique_locations r w :
  unique_locations (db w) → unique_locations (db (handle E r w).2).
Proof.
  unfold unique_locations. intros Hu.
  assert (Hadd : ∀ city country loc,
             find (same_city city country) (locations (db w)) = None →
             loc_city loc = city → loc_country loc = country →
             NoDup ((fun l => (loc_city l, loc_country l)) <$> (locations (db w) ++ [loc]))).
  { intros city country loc Hnone Hc Hk. rewrite fmap_app. apply NoDup_app.
    split; [done|]. split; [|apply NoDup_singleton].
    intros pair Hin Hin'. apply list_elem_of_singleton in Hin'. subst pair.
    apply list_elem_of_fmap in Hin as (l & [= Hc' Hk'] & Hl).
    apply find_same_city_None in Hnone. apply Hnone. exists l.
    repeat split; [done|congruence|congruence]. }
  pose proof (handle_other r w) as Hother. cbv zeta in Hother.
  destruct r; cbn [handle] in *; rewrite ?fmap_run in *.
  - destruct (create_location_db location w) as (_ & [->|(Hnone & lat & lon & ->)]);
      [done|].
    cbn [set_locations locations]. by eapply Hadd.
  - by destruct Hother as (c & ->).
  - destruct Hother as (c & _ & [->|[-> _]]); [done|].
    by apply NoDup_fmap_remove_first.
  - destruct (create_info_db input w) as ([->|(Hnone & loc & Hc & Hk & ->)] & _);
      [done|].
    by eapply Hadd.
  - by destruct Hother as (c & ->).
  - by destruct Hother as (c & ->).
  - by destruct Hother as (c & _ & -> & _).
  - by destruct Hother as (c & _ & -> & _).
  - by destruct Hother as [->|(c & ->)].
  - by destruct Hother as [->|(c & ->)].
  - by destruct Hother as (c & ->).
  - by destruct Hother as (c & [->|(q & ->)]).
Qed.

(** X11: no request makes a (location, date) pair have two WeatherInfo
    rows: if every pair has at most one row before a request, every pair has
    at most one row after it, whatever the request and its outcome. *)
Theorem handle_keeps_unique_rows r w :
  unique_rows (db w) → unique_rows (db (handle E r w).2).
Proof.
  unfold unique_rows. intros Hu l d. specialize (Hu l d).
  pose proof (handle_other r w) as Hother. cbv zeta in Hother.
  destruct r; cbn [handle] in *; rewrite ?fmap_run in *.
  - destruct (create_location_db location w) as (_ & [->|(_ & lat & lon & ->)]); done.
  - by destruct Hother as (c & ->).
  - destruct Hother as (c & _ & [->|[_ Hi]]); [done|].
    unfold rows_of in *. rewrite Hi.
    etrans; [apply filter_filter_length|done].
  - destruct (create_info_db input w) as (_ & _ & Hrows).
    destruct (Hrows l d) as [->|[_ ->]]; [done | lia].
  - by destruct Hother as (c & ->).
  - by destruct Hother as (c & ->).
  - destruct Hother as (c & _ & _ & [Hi|Hi]); unfold rows_of in *; rewrite Hi; [done|].
    rewrite filter_update_first_length; [done|]. intros i. by destruct i.
  - destruct Hother as (c & _ & _ & [Hi|Hi]); unfold rows_of in *; rewrite Hi; [done|].
    etrans; [apply filter_remove_first_length|done].
  - by destruct Hother as [->|(c & ->)].
  - by destruct Hother as [->|(c & ->)].
  - by destruct Hother as (c & ->).
  - by destruct Hother as (c & [->|(q & ->)]).
Qed.







Lemma create_info_trace input w :
  ∃ t, trace (create_info E input w).2 = trace w ++ t
       ∧ Forall (ingestion_event E (dict_get input "city") (dict_get input "country")) t.
Proof.
  destruct (create_info E input w) as [r w'] eqn:Hrun. cbn [snd].
  destruct (create_info_cases E input w) as [(e & He & _)|(start & end_ & Hv & Heq)].
  { rewrite He in Hrun. injection Hrun as _ <-. exists []. by rewrite app_nil_r. }
  rewrite Heq in Hrun.
  pose proof (start_in_window _ _ _ _ Hv) as [? _].
  pose proof (end_in_window _ _ _ _ Hv) as [_ ?].
  apply fetch_and_store_inv in Hrun
    as [(_ & _ & _ & Ht)|(loc & w1 & t0 & Hloop & _ & _ & Ht0 & Hcase)].
  { eexists. split; [exact Ht|]. repeat constructor. }
  apply ingest_loop_effect in Hloop as (_ & _ & (t1 & Ht1 & HF) & _).
  exists (t0 ++ t1). rewrite Ht1, Ht0, <- app_assoc. split; [done|].
  apply Forall_app. split.
  - destruct Hcase as [(_ & _ & ->)|(_ & _ & data & _ & _ & ->)]; repeat constructor.
  - eapply Forall_impl; [exact HF|]. intros e. by apply loop_event_ingestion.
Qed.

(** X13: each request calls only the collaborators of its own endpoint.
    Reading, updating, deleting and exporting never call a provider; only
    create-location and ingestion call the weather provider, create-location
    only for the current weather of its own city and country; only the
    videos endpoint calls the video search, with the bound it was given. *)
Theorem handle_allowed_calls r w :
  ∃ t, trace (handle E r w).2 = trace w ++ t ∧ Forall (allowed_call E r) t.
Proof.
  pose proof (handle_other r w) as Hother. cbv zeta in Hother.
  destruct r; cbn [handle] in *; rewrite ?fmap_run in *.
  - destruct (create_location_db location w) as ((t & Ht & HF) & _).
    exists t. split; [done|]. eapply Forall_impl; [exact HF|].
    intros e He. destruct e; cbn in *; auto.
  - destruct Hother as (c & ->). eexists. split; [done|]. by repeat constructor.
  - destruct Hother as (c & -> & _). eexists. split; [done|]. by repeat constructor.
  - destruct (create_info_trace input w) as (t & Ht & HF).
    exists t. split; [done|]. eapply Forall_impl; [exact HF|].
    intros e He. by destruct e.
  - destruct Hother as (c & ->). eexists. split; [done|]. by repeat constructor.
  - destruct Hother as (c & ->). eexists. split; [done|]. by repeat constructor.
  - destruct Hother as (c & -> & _). eexists. split; [done|]. by repeat constructor.
  - destruct Hother as (c & -> & _). eexists. split; [done|]. by repeat constructor.
  - destruct Hother as [->|(c & ->)].
    + exists []. by rewrite app_nil_r.
    + eexists. split; [done|]. by repeat constructor.
  - destruct Hother as [->|(c & ->)].
    + exists []. by rewrite app_nil_r.
    + eexists. split; [done|]. by repeat constructor.
  - destruct Hother as (c & ->). eexists. split; [done|]. by repeat constructor.
  - destruct Hother as (c & [->|(q & ->)]).
    + eexists. split; [done|]. by repeat constructor.
    + eexists. split; [done|]. constructor; [done|]. constructor; [by exists q|done].
Qed.

End Invariants.

(** ** Export and videos *)

Section ExportVideos.

Context (E : env).

Lemma string_app_empty_r (s : string) : s +:+ "" = s.
Proof.
  induction s as [|c s IH]; [done|].
  change (String c (s +:+ "") = String c s). by f_equal.
Qed.

Lemma page_all {A : Type} (l : list A) : page 0 (-1) l = l.
Proof. reflexivity. Qed.

Lemma export_rows_ok infos w :
  Forall (has_location (db w)) infos →
  ∃ rows,
    export_rows E infos w = (Ok rows, w)
    ∧ Forall2 (fun i row =>
                 ∃ l, find (fun l => bool_decide (loc_id l = info_location_id i))
                        (locations (db w)) = Some l
                      ∧ row = export_row_of E i l) infos rows.
Proof.
  induction 1 as [|i infos [l Hl] _ (rows & Hrows & HF)]; cbn [export_rows].
  - exists []. split; [done|]. constructor.
  - rewrite bind_run. unfold location_of at 1. rewrite Hl. rewrite bind_run, Hrows.
    eexists. split; [reflexivity|]. constructor; [|done]. by exists l.
Qed.

Lemma export_rows_ok_inv infos w rows w' :
  export_rows E infos w = (Ok rows, w') → Forall (has_location (db w)) infos.
Proof.
  revert rows w'. induction infos as [|i infos IH]; intros rows w'; [by constructor|].
  cbn [export_rows]. rewrite bind_run. unfold location_of at 1.
  destruct (find _ _) as [l|] eqn:Hl; [|discriminate].
  rewrite bind_run.
  destruct (export_rows E infos w) as [[rest|e] wr] eqn:Hrest; [|discriminate].
  intros _. constructor; [by exists l | by eapply IH].
Qed.

(** X14: the export is complete exactly when no record is orphaned.  When
    every stored record references a stored location, [export_json] returns
    one row per stored record, all of them (no page limit applies) and in
    stored order, each with the identifier, date, temperature and
    description of its record and the fields of its location.  When some
    record references no stored location, the export fails with the
    uncaught [AttributeError] and returns no row at all.  In both cases it
    reads the records once and calls no provider. *)
Theorem export_json_complete w :
  let w' := {| db := db w; trace := trace w ++ [Crud (ListInfos 0 (-1))] |} in
  (integrity (db w) →
   ∃ rows,
     export_json E w = (Ok rows, w')
     ∧ Forall2 (fun i row =>
                  ∃ l, find (fun l => bool_decide (loc_id l = info_location_id i))
                         (locations (db w)) = Some l
                       ∧ row = export_row_of E i l)
               (weather_infos (db w)) rows)
  ∧ (¬ integrity (db w) → export_json E w = (Raise AttributeError, w')).
Proof.
  cbv zeta. unfold export_json, crud.list_infos, crud.run, integrity.
  rewrite bind_run, page_all. cbn beta iota.
  set (w' := {| db := db w; trace := trace w ++ [Crud (ListInfos 0 (-1))] |}).
  split.
  - intros Hi. by apply (export_rows_ok _ w').
  - intros Hn.
    pose proof (export_rows_world E (weather_infos (db w)) w') as Hw.
    destruct (export_rows E (weather_infos (db w)) w') as [[rows|e] w''] eqn:Hrun;
      cbn [snd] in Hw; subst w''.
    + apply export_rows_ok_inv in Hrun. by destruct Hn.
    + by apply export_rows_raise in Hrun as ->.
Qed.

(** X15: the videos endpoint searches only for a stored location.  For an
    unknown identifier it answers 404 after the one lookup, without calling
    the video search.  For a stored location it calls the search once, with
    the query "weather in <city>" followed by ", <country>" only when the
    country is truthy, and with the bound it was given; it returns the city
    and the list of the provider as it came, and a failure of the provider
    is passed on. *)
Theorem get_location_videos_search location_id max_results w :
  let look := Crud (GetLocation location_id) in
  let by_id := fun l => bool_decide (loc_id l = location_id) in
  (find by_id (locations (db w)) = None →
   get_location_videos E location_id max_results w
   = (Raise (HTTPException 404 "Location not found"),
      {| db := db w; trace := trace w ++ [look] |}))
  ∧ (∀ l,
       find by_id (locations (db w)) = Some l →
       let w' := {| db := db w;
                    trace := trace w ++ [look; YoutubeSearch (video_query E l) max_results] |} in
       (truthy (loc_country l) = false →
        video_query E l = "weather in " +:+ str E (loc_city l))
       ∧ get_location_videos E location_id max_results w
         = match search_youtube_videos E (trace w ++ [look]) (video_query E l) max_results with
           | Some videos => (Ok (loc_city l, videos), w')
           | None => (Raise CollaboratorError, w')
           end).
Proof.
  cbv zeta. unfold get_location_videos, crud.get_location, crud.run.
  rewrite bind_run. split.
  - by intros ->.
  - intros l ->. split.
    + intros Hk. unfold video_query. rewrite Hk. apply string_app_empty_r.
    + cbn beta iota. rewrite bind_run. unfold youtube_search, video_query, log.
      cbn [db trace].
      destruct (search_youtube_videos _ _ _ _); rewrite <- app_assoc; reflexivity.
Qed.

End ExportVideos.

(** ** The further properties on actual requests *)

Section FurtherRuns.

Import Demo.

Lemma six_days_validated :
  validated env_up (london_request "2026-11-04" "2026-11-09") (nov 4) (nov 9).
Proof. apply london_request_validated; vm_compute; done. Qed.

Lemma london_world_validated :
  validated env_flaky (london_request "2026-11-04" "2026-11-09") (nov 4) (nov 9).
Proof. apply london_request_validated; vm_compute; done. Qed.

(** The six lookups of the six-day request, in order. *)
Lemma create_info_lookup_order_witness :
  validated env_up (london_request "2026-11-04" "2026-11-09") (nov 4) (nov 9)
  ∧ ∃ t,
      trace (create_info env_up (london_request "2026-11-04" "2026-11-09") start_world).2
      = trace start_world ++ t
      ∧ lookup_dates t `prefix_of` date_range (nov 4) (nov 9).
Proof.
  split; [exact six_days_validated|].
  destruct (create_info_lookup_order env_up _ start_world _ _ six_days_validated)
    as (t & Ht & Hpre & _).
  exists t. split; [exact Ht | exact Hpre].
Defined.

(** A start date sent as the number 20261104 escapes as a [TypeError]. *)
Lemma create_info_date_parsing_witness :
  let input : dict := <["start_date" := VInt 20261104]> (london_request "" "2026-11-04") in
  present input = true
  ∧ create_info env_up input london_world = (Raise TypeError, london_world).
Proof.
  cbv zeta.
  assert (Hp : present (<["start_date" := VInt 20261104]>
                          (london_request "" "2026-11-04")) = true)
    by (vm_compute; reflexivity).
  split; [exact Hp|].
  apply (proj1 (proj2 (create_info_date_parsing env_up _ london_world Hp))).
  intros a. vm_compute. discriminate.
Defined.

(** The six-day request on the empty database, with forecasts failing from
    the third day on: London is stored all the same. *)
Lemma ingestion_resolves_location_witness :
  validated env_flaky (london_request "2026-11-04" "2026-11-09") (nov 4) (nov 9)
  ∧ ¬ stored (VStr "London") (VStr "GB") (db start_world)
  ∧ locations
      (db (create_info env_flaky (london_request "2026-11-04" "2026-11-09") start_world).2)
    = [london].
Proof.
  assert (Hn : ¬ stored (VStr "London") (VStr "GB") (db start_world)).
  { intros (l & Hin & _). cbn in Hin. by apply elem_of_nil in Hin. }
  split; [exact london_world_validated|]. split; [exact Hn|].
  exact (proj2 (ingestion_resolves_location env_flaky _ start_world _ _
                  london_world_validated) Hn).
Defined.

(** The third record of the six-day request, read back by its date. *)
Lemma ingested_records_read_back_witness :
  ∃ infos w' loc i,
    create_info env_up (london_request "2026-11-04" "2026-11-09") start_world
    = (Ok infos, w')
    ∧ infos !! 2%nat = Some i
    ∧ (get_info_by_loc_date env_up (loc_id loc) "2026-11-06" w').1 = Ok i.
Proof.
  destruct (create_info env_up (london_request "2026-11-04" "2026-11-09") start_world)
    as [[infos|e] w'] eqn:Hrun; [|vm_compute in Hrun; discriminate].
  destruct (ingested_records_read_back env_up _ _ _ _ _ _ six_days_validated Hrun)
    as (loc & _ & Hread & _).
  destruct (infos !! 2%nat) as [i|] eqn:Hi.
  2:{ vm_compute in Hrun. injection Hrun as <- _. vm_compute in Hi. discriminate. }
  exists infos, w', loc, i. split; [reflexivity|]. split; [exact Hi|].
  apply (Hread 2%nat i "2026-11-06" Hi). vm_compute. reflexivity.
Defined.

(** A by-date-range query from the 9th back to the 4th is answered 404. *)
Lemma range_query_reversed_witness :
  nov 9 > nov 4
  ∧ (get_infos_by_loc_date_range env_up 1 "2026-11-09" "2026-11-04" london_world).1
    = Raise (HTTPException 404 "Weather info not found").
Proof.
  assert (Hgt : nov 9 > nov 4) by (vm_compute; reflexivity).
  split; [exact Hgt|].
  rewrite (proj2 (range_query_reversed env_up 1 "2026-11-09" "2026-11-04" london_world)
             (nov 9) (nov 4) eq_refl eq_refl Hgt).
  reflexivity.
Defined.

(** Quito is created, then ingested for today: no second location. *)
Lemma create_location_then_ingest_witness :
  ∃ l w1,
    create_location env_up quito_location start_world = (Ok l, w1)
    ∧ locations
        (db (create_info env_up
               {[ "city" := VStr "Quito"; "country" := VStr "EC";
                  "start_date" := VStr "2026-11-04"; "end_date" := VStr "2026-11-04" ]}
               w1).2)
      = locations (db w1).
Proof.
  destruct (create_location env_up quito_location start_world) as [[l|e] w1] eqn:Hrun;
    [|vm_compute in Hrun; discriminate].
  exists l, w1. split; [reflexivity|].
  assert (Hv : validated env_up
                 {[ "city" := VStr "Quito"; "country" := VStr "EC";
                    "start_date" := VStr "2026-11-04"; "end_date" := VStr "2026-11-04" ]}
                 (nov 4) (nov 4)).
  { constructor; vm_compute; try done; split; discriminate. }
  exact (proj1 (create_location_then_ingest env_up quito_location start_world l w1 _ _ _
                  Hrun Hv eq_refl eq_refl)).
Defined.


Lemma london_world_unique_locations : unique_locations (db london_world).
Proof. unfold unique_locations. cbn. apply NoDup_singleton. Qed.

Lemma london_world_unique_rows : unique_rows (db london_world).
Proof.
  intros l d. unfold rows_of. cbn [london_world db weather_infos].
  destruct (decide (same_loc_date l d london_record = true)).
  - rewrite filter_cons_True by done. cbn. lia.
  - rewrite filter_cons_False by done. cbn. lia.
Qed.

Lemma london_world_integrity : integrity (db london_world).
Proof. unfold integrity. repeat constructor. by exists london. Qed.

(** The stored pairs stay distinct through an ingestion for Paris. *)
Lemma handle_keeps_unique_locations_witness :
  unique_locations (db london_world)
  ∧ unique_locations
      (db (handle env_up (PostWeatherInfos
                            {[ "city" := VStr "Paris"; "start_date" := VStr "2026-11-04";
                               "end_date" := VStr "2026-11-05" ]}) london_world).2).
Proof.
  split; [exact london_world_unique_locations|].
  exact (handle_keeps_unique_locations env_up _ _ london_world_unique_locations).
Defined.

(** The rows stay one per (location, date) through an ingestion for London. *)
Lemma handle_keeps_unique_rows_witness :
  unique_rows (db london_world)
  ∧ unique_rows
      (db (handle env_up (PostWeatherInfos (london_request "2026-11-04" "2026-11-09"))
             london_world).2).
Proof.
  split; [exact london_world_unique_rows|].
  exact (handle_keeps_unique_rows env_up _ _ london_world_unique_rows).
Defined.


(** The export of [london_world]: its one record, with London embedded. *)
Lemma export_json_complete_witness :
  integrity (db london_world)
  ∧ ∃ rows w',
      export_json env_up london_world = (Ok rows, w')
      ∧ (row_date <$> rows) = ["2026-11-03"]
      ∧ (fun r => el_city (row_location r)) <$> rows = [VStr "London"].
Proof.
  split; [exact london_world_integrity|].
  destruct (proj1 (export_json_complete env_up london_world) london_world_integrity)
    as (rows & Hrun & HF).
  eexists rows, _. split; [exact Hrun|].
  vm_compute in Hrun. injection Hrun as <-. split; reflexivity.
Defined.

(** The videos of London are searched with city and country. *)
Lemma get_location_videos_search_witness :
  find (fun l => bool_decide (loc_id l = 1)) (locations (db london_world)) = Some london
  ∧ video_query env_up london = "weather in London, GB"
  ∧ (get_location_videos env_up 1 3 london_world).1
    = Ok (VStr "London", ["a video"; "another video"]).
Proof.
  assert (Hf : find (fun l => bool_decide (loc_id l = 1)) (locations (db london_world))
               = Some london) by reflexivity.
  split; [exact Hf|]. split; [reflexivity|].
  rewrite (proj2 (proj2 (get_location_videos_search env_up 1 3 london_world) london Hf)).
  reflexivity.
Defined.

End FurtherRuns.
